(** * Vigenere.py: validation, normalisation and the Vigenere transform

    A shallow embedding of [src/main/python/Vigenere.py] and the properties
    of its cipher core.

    Python strings are sequences of Unicode code points: a character is its
    code point, an integer (CPython's are below 0x110000), and a string is a
    list of them.  Python integers are unbounded, so [Z] is used throughout,
    with [Z.div] and [Z.modulo] for [//] and [%] (both round towards minus
    infinity, as Python's do).  A call either returns a value or raises an
    exception; [logging.warning] is modelled by returning the records
    emitted next to the value. *)

From Stdlib Require Import ZArith List Bool Lia String Ascii.
From Stdlib Require Import DecimalString HexadecimalString.
Import ListNotations.
Local Open Scope Z_scope.

(** ** Characters, strings and exceptions *)

Definition char : Type := Z.
Definition str : Type := list char.

Inductive exn : Type :=
| ValueError (mensaje : str)
| TypeError.

Inductive res (A : Type) : Type :=
| Ret (a : A)
| Raise (e : exn).

Arguments Ret {A} a.
Arguments Raise {A} e.

Definition bind {A B : Type} (m : res A) (f : A -> res B) : res B :=
  match m with
  | Ret a => f a
  | Raise e => Raise e
  end.

Notation "x <- m ;; k" := (bind m (fun x => k))
  (at level 61, m at next level, right associativity).

(** A comprehension or a generator consumed from left to right: the first
    element whose computation raises ends it. *)
Fixpoint mapM {A B : Type} (f : A -> res B) (l : list A) : res (list B) :=
  match l with
  | [] => Ret []
  | a :: l' => b <- f a ;; bs <- mapM f l' ;; Ret (b :: bs)
  end.

(** ** The Python runtime the module relies on *)

Module Py.

(** Source literals.  The file is UTF-8 and a Rocq string literal is its
    bytes, so a literal is decoded to the code points Python sees. *)
Fixpoint utf8_decode (bs : list Z) : str :=
  match bs with
  | [] => []
  | b0 :: r0 =>
    if b0 <? 0x80 then b0 :: utf8_decode r0
    else match r0 with
    | [] => [b0]
    | b1 :: r1 =>
      if b0 <? 0xE0 then
        ((b0 - 0xC0) * 64 + (b1 - 0x80)) :: utf8_decode r1
      else match r1 with
      | [] => [b0; b1]
      | b2 :: r2 =>
        if b0 <? 0xF0 then
          ((b0 - 0xE0) * 4096 + (b1 - 0x80) * 64 + (b2 - 0x80))
            :: utf8_decode r2
        else match r2 with
        | [] => [b0; b1; b2]
        | b3 :: r3 =>
          ((b0 - 0xF0) * 262144 + (b1 - 0x80) * 4096
           + (b2 - 0x80) * 64 + (b3 - 0x80)) :: utf8_decode r3
        end
      end
    end
  end.

Definition lit (s : string) : str :=
  utf8_decode (List.map (fun a => Z.of_N (N_of_ascii a)) (list_ascii_of_string s)).

(** [len(s)] and truthiness of a sequence ([if s], [not s]). *)
Definition len {A : Type} (s : list A) : Z := Z.of_nat (List.length s).

Definition truthy {A : Type} (s : list A) : bool :=
  match s with [] => false | _ :: _ => true end.

(** [a == b] on strings. *)
Fixpoint str_eqb (a b : str) : bool :=
  match a, b with
  | [], [] => true
  | x :: a', y :: b' => (x =? y) && str_eqb a' b'
  | _, _ => false
  end.

(** [c in s] for a one-character [c]. *)
Definition contains (s : str) (c : char) : bool := existsb (Z.eqb c) s.

(** [string.ascii_uppercase] *)
Definition ascii_uppercase : str := lit "ABCDEFGHIJKLMNOPQRSTUVWXYZ".

(** [sep.join(parts)] *)
Fixpoint join (sep : str) (parts : list str) : str :=
  match parts with
  | [] => []
  | [p] => p
  | p :: ps => p ++ sep ++ join sep ps
  end.

(** [s * n] *)
Definition times (s : str) (n : Z) : str := List.concat (List.repeat s (Z.to_nat n)).

(** [s[:n]] for [0 <= n]. *)
Definition prefix (s : str) (n : Z) : str := List.firstn (Z.to_nat n) s.

(** [zip(a, b)] *)
Definition zip (a b : str) : list (char * char) := List.combine a b.

(** [ord(s)]: the code point of a one-character string, [TypeError] for any
    other length. *)
Definition ord (s : str) : res Z :=
  match s with
  | [c] => Ret c
  | _ => Raise TypeError
  end.

(** [chr(n)]: [ValueError] outside [range(0x110000)]. *)
Definition chr (n : Z) : res char :=
  if (0 <=? n) && (n <? 0x110000) then Ret n
  else Raise (ValueError (lit "chr() arg not in range(0x110000)")).

(** [str.isspace] on one character: the code points [str.strip()] removes
    (Unicode 14, as in CPython 3.11). *)
Definition whitespace : list char :=
  [0x9; 0xA; 0xB; 0xC; 0xD; 0x1C; 0x1D; 0x1E; 0x1F; 0x20; 0x85; 0xA0; 0x1680;
   0x2000; 0x2001; 0x2002; 0x2003; 0x2004; 0x2005; 0x2006; 0x2007; 0x2008;
   0x2009; 0x200A; 0x2028; 0x2029; 0x202F; 0x205F; 0x3000].

Definition isspace (c : char) : bool := existsb (Z.eqb c) whitespace.

Fixpoint lstrip (s : str) : str :=
  match s with
  | [] => []
  | c :: s' => if isspace c then lstrip s' else s
  end.

(** [s.strip()] *)
Definition strip (s : str) : str := List.rev (lstrip (List.rev (lstrip s))).

(** Digits of a number, for [str(n)] and the format specifications. *)
Definition decimal (n : Z) : str := lit (DecimalString.NilZero.string_of_int (Z.to_int n)).

Definition hex_lower (n : Z) : str :=
  lit (HexadecimalString.NilZero.string_of_uint (N.to_hex_uint (Z.to_N n))).

Definition zfill (width : nat) (digits : str) : str :=
  List.repeat 0x30 (width - List.length digits) ++ digits.

(** *** [str.upper]

    CPython upper-cases a string code point by code point with the full
    Unicode case mapping (Unicode 14 in CPython 3.11): a code point of
    SpecialCasing.txt becomes several, any other one becomes its simple
    upper-case mapping, and a code point without one is kept. *)

(** Code points whose upper-case form is not a single code point. *)
Definition special_casing : list (char * str) :=
  [
    (0xDF, [0x53; 0x53]); (0x149, [0x2BC; 0x4E]); (0x1F0, [0x4A; 0x30C]);
    (0x390, [0x399; 0x308; 0x301]); (0x3B0, [0x3A5; 0x308; 0x301]); (0x587, [0x535; 0x552]);
    (0x1E96, [0x48; 0x331]); (0x1E97, [0x54; 0x308]); (0x1E98, [0x57; 0x30A]);
    (0x1E99, [0x59; 0x30A]); (0x1E9A, [0x41; 0x2BE]); (0x1F50, [0x3A5; 0x313]);
    (0x1F52, [0x3A5; 0x313; 0x300]); (0x1F54, [0x3A5; 0x313; 0x301]); (0x1F56, [0x3A5; 0x313; 0x342]);
    (0x1F80, [0x1F08; 0x399]); (0x1F81, [0x1F09; 0x399]); (0x1F82, [0x1F0A; 0x399]);
    (0x1F83, [0x1F0B; 0x399]); (0x1F84, [0x1F0C; 0x399]); (0x1F85, [0x1F0D; 0x399]);
    (0x1F86, [0x1F0E; 0x399]); (0x1F87, [0x1F0F; 0x399]); (0x1F88, [0x1F08; 0x399]);
    (0x1F89, [0x1F09; 0x399]); (0x1F8A, [0x1F0A; 0x399]); (0x1F8B, [0x1F0B; 0x399]);
    (0x1F8C, [0x1F0C; 0x399]); (0x1F8D, [0x1F0D; 0x399]); (0x1F8E, [0x1F0E; 0x399]);
    (0x1F8F, [0x1F0F; 0x399]); (0x1F90, [0x1F28; 0x399]); (0x1F91, [0x1F29; 0x399]);
    (0x1F92, [0x1F2A; 0x399]); (0x1F93, [0x1F2B; 0x399]); (0x1F94, [0x1F2C; 0x399]);
    (0x1F95, [0x1F2D; 0x399]); (0x1F96, [0x1F2E; 0x399]); (0x1F97, [0x1F2F; 0x399]);
    (0x1F98, [0x1F28; 0x399]); (0x1F99, [0x1F29; 0x399]); (0x1F9A, [0x1F2A; 0x399]);
    (0x1F9B, [0x1F2B; 0x399]); (0x1F9C, [0x1F2C; 0x399]); (0x1F9D, [0x1F2D; 0x399]);
    (0x1F9E, [0x1F2E; 0x399]); (0x1F9F, [0x1F2F; 0x399]); (0x1FA0, [0x1F68; 0x399]);
    (0x1FA1, [0x1F69; 0x399]); (0x1FA2, [0x1F6A; 0x399]); (0x1FA3, [0x1F6B; 0x399]);
    (0x1FA4, [0x1F6C; 0x399]); (0x1FA5, [0x1F6D; 0x399]); (0x1FA6, [0x1F6E; 0x399]);
    (0x1FA7, [0x1F6F; 0x399]); (0x1FA8, [0x1F68; 0x399]); (0x1FA9, [0x1F69; 0x399]);
    (0x1FAA, [0x1F6A; 0x399]); (0x1FAB, [0x1F6B; 0x399]); (0x1FAC, [0x1F6C; 0x399]);
    (0x1FAD, [0x1F6D; 0x399]); (0x1FAE, [0x1F6E; 0x399]); (0x1FAF, [0x1F6F; 0x399]);
    (0x1FB2, [0x1FBA; 0x399]); (0x1FB3, [0x391; 0x399]); (0x1FB4, [0x386; 0x399]);
    (0x1FB6, [0x391; 0x342]); (0x1FB7, [0x391; 0x342; 0x399]); (0x1FBC, [0x391; 0x399]);
    (0x1FC2, [0x1FCA; 0x399]); (0x1FC3, [0x397; 0x399]); (0x1FC4, [0x389; 0x399]);
    (0x1FC6, [0x397; 0x342]); (0x1FC7, [0x397; 0x342; 0x399]); (0x1FCC, [0x397; 0x399]);
    (0x1FD2, [0x399; 0x308; 0x300]); (0x1FD3, [0x399; 0x308; 0x301]); (0x1FD6, [0x399; 0x342]);
    (0x1FD7, [0x399; 0x308; 0x342]); (0x1FE2, [0x3A5; 0x308; 0x300]); (0x1FE3, [0x3A5; 0x308; 0x301]);
    (0x1FE4, [0x3A1; 0x313]); (0x1FE6, [0x3A5; 0x342]); (0x1FE7, [0x3A5; 0x308; 0x342]);
    (0x1FF2, [0x1FFA; 0x399]); (0x1FF3, [0x3A9; 0x399]); (0x1FF4, [0x38F; 0x399]);
    (0x1FF6, [0x3A9; 0x342]); (0x1FF7, [0x3A9; 0x342; 0x399]); (0x1FFC, [0x3A9; 0x399]);
    (0xFB00, [0x46; 0x46]); (0xFB01, [0x46; 0x49]); (0xFB02, [0x46; 0x4C]);
    (0xFB03, [0x46; 0x46; 0x49]); (0xFB04, [0x46; 0x46; 0x4C]); (0xFB05, [0x53; 0x54]);
    (0xFB06, [0x53; 0x54]); (0xFB13, [0x544; 0x546]); (0xFB14, [0x544; 0x535]);
    (0xFB15, [0x544; 0x53B]); (0xFB16, [0x54E; 0x546]); (0xFB17, [0x544; 0x53D])
  ].

(** Simple mappings, as runs [(first, last, step, delta)]: every code point
    [first + k * step] up to [last] maps to itself plus [delta]. *)
Definition simple_upper : list (Z * Z * Z * Z) :=
  [
    (0x61, 0x7A, 1, (-32)); (0xB5, 0xB5, 1, 743); (0xE0, 0xF6, 1, (-32));
    (0xF8, 0xFE, 1, (-32)); (0xFF, 0xFF, 1, 121); (0x101, 0x12F, 2, (-1));
    (0x131, 0x131, 1, (-232)); (0x133, 0x137, 2, (-1)); (0x13A, 0x148, 2, (-1));
    (0x14B, 0x177, 2, (-1)); (0x17A, 0x17E, 2, (-1)); (0x17F, 0x17F, 1, (-300));
    (0x180, 0x180, 1, 195); (0x183, 0x185, 2, (-1)); (0x188, 0x188, 1, (-1));
    (0x18C, 0x18C, 1, (-1)); (0x192, 0x192, 1, (-1)); (0x195, 0x195, 1, 97);
    (0x199, 0x199, 1, (-1)); (0x19A, 0x19A, 1, 163); (0x19E, 0x19E, 1, 130);
    (0x1A1, 0x1A5, 2, (-1)); (0x1A8, 0x1A8, 1, (-1)); (0x1AD, 0x1AD, 1, (-1));
    (0x1B0, 0x1B0, 1, (-1)); (0x1B4, 0x1B6, 2, (-1)); (0x1B9, 0x1B9, 1, (-1));
    (0x1BD, 0x1BD, 1, (-1)); (0x1BF, 0x1BF, 1, 56); (0x1C5, 0x1C5, 1, (-1));
    (0x1C6, 0x1C6, 1, (-2)); (0x1C8, 0x1C8, 1, (-1)); (0x1C9, 0x1C9, 1, (-2));
    (0x1CB, 0x1CB, 1, (-1)); (0x1CC, 0x1CC, 1, (-2)); (0x1CE, 0x1DC, 2, (-1));
    (0x1DD, 0x1DD, 1, (-79)); (0x1DF, 0x1EF, 2, (-1)); (0x1F2, 0x1F2, 1, (-1));
    (0x1F3, 0x1F3, 1, (-2)); (0x1F5, 0x1F5, 1, (-1)); (0x1F9, 0x21F, 2, (-1));
    (0x223, 0x233, 2, (-1)); (0x23C, 0x23C, 1, (-1)); (0x23F, 0x240, 1, 10815);
    (0x242, 0x242, 1, (-1)); (0x247, 0x24F, 2, (-1)); (0x250, 0x250, 1, 10783);
    (0x251, 0x251, 1, 10780); (0x252, 0x252, 1, 10782); (0x253, 0x253, 1, (-210));
    (0x254, 0x254, 1, (-206)); (0x256, 0x257, 1, (-205)); (0x259, 0x259, 1, (-202));
    (0x25B, 0x25B, 1, (-203)); (0x25C, 0x25C, 1, 42319); (0x260, 0x260, 1, (-205));
    (0x261, 0x261, 1, 42315); (0x263, 0x263, 1, (-207)); (0x265, 0x265, 1, 42280);
    (0x266, 0x266, 1, 42308); (0x268, 0x268, 1, (-209)); (0x269, 0x269, 1, (-211));
    (0x26A, 0x26A, 1, 42308); (0x26B, 0x26B, 1, 10743); (0x26C, 0x26C, 1, 42305);
    (0x26F, 0x26F, 1, (-211)); (0x271, 0x271, 1, 10749); (0x272, 0x272, 1, (-213));
    (0x275, 0x275, 1, (-214)); (0x27D, 0x27D, 1, 10727); (0x280, 0x280, 1, (-218));
    (0x282, 0x282, 1, 42307); (0x283, 0x283, 1, (-218)); (0x287, 0x287, 1, 42282);
    (0x288, 0x288, 1, (-218)); (0x289, 0x289, 1, (-69)); (0x28A, 0x28B, 1, (-217));
    (0x28C, 0x28C, 1, (-71)); (0x292, 0x292, 1, (-219)); (0x29D, 0x29D, 1, 42261);
    (0x29E, 0x29E, 1, 42258); (0x345, 0x345, 1, 84); (0x371, 0x373, 2, (-1));
    (0x377, 0x377, 1, (-1)); (0x37B, 0x37D, 1, 130); (0x3AC, 0x3AC, 1, (-38));
    (0x3AD, 0x3AF, 1, (-37)); (0x3B1, 0x3C1, 1, (-32)); (0x3C2, 0x3C2, 1, (-31));
    (0x3C3, 0x3CB, 1, (-32)); (0x3CC, 0x3CC, 1, (-64)); (0x3CD, 0x3CE, 1, (-63));
    (0x3D0, 0x3D0, 1, (-62)); (0x3D1, 0x3D1, 1, (-57)); (0x3D5, 0x3D5, 1, (-47));
    (0x3D6, 0x3D6, 1, (-54)); (0x3D7, 0x3D7, 1, (-8)); (0x3D9, 0x3EF, 2, (-1));
    (0x3F0, 0x3F0, 1, (-86)); (0x3F1, 0x3F1, 1, (-80)); (0x3F2, 0x3F2, 1, 7);
    (0x3F3, 0x3F3, 1, (-116)); (0x3F5, 0x3F5, 1, (-96)); (0x3F8, 0x3F8, 1, (-1));
    (0x3FB, 0x3FB, 1, (-1)); (0x430, 0x44F, 1, (-32)); (0x450, 0x45F, 1, (-80));
    (0x461, 0x481, 2, (-1)); (0x48B, 0x4BF, 2, (-1)); (0x4C2, 0x4CE, 2, (-1));
    (0x4CF, 0x4CF, 1, (-15)); (0x4D1, 0x52F, 2, (-1)); (0x561, 0x586, 1, (-48));
    (0x10D0, 0x10FA, 1, 3008); (0x10FD, 0x10FF, 1, 3008); (0x13F8, 0x13FD, 1, (-8));
    (0x1C80, 0x1C80, 1, (-6254)); (0x1C81, 0x1C81, 1, (-6253)); (0x1C82, 0x1C82, 1, (-6244));
    (0x1C83, 0x1C84, 1, (-6242)); (0x1C85, 0x1C85, 1, (-6243)); (0x1C86, 0x1C86, 1, (-6236));
    (0x1C87, 0x1C87, 1, (-6181)); (0x1C88, 0x1C88, 1, 35266); (0x1D79, 0x1D79, 1, 35332);
    (0x1D7D, 0x1D7D, 1, 3814); (0x1D8E, 0x1D8E, 1, 35384); (0x1E01, 0x1E95, 2, (-1));
    (0x1E9B, 0x1E9B, 1, (-59)); (0x1EA1, 0x1EFF, 2, (-1)); (0x1F00, 0x1F07, 1, 8);
    (0x1F10, 0x1F15, 1, 8); (0x1F20, 0x1F27, 1, 8); (0x1F30, 0x1F37, 1, 8);
    (0x1F40, 0x1F45, 1, 8); (0x1F51, 0x1F57, 2, 8); (0x1F60, 0x1F67, 1, 8);
    (0x1F70, 0x1F71, 1, 74); (0x1F72, 0x1F75, 1, 86); (0x1F76, 0x1F77, 1, 100);
    (0x1F78, 0x1F79, 1, 128); (0x1F7A, 0x1F7B, 1, 112); (0x1F7C, 0x1F7D, 1, 126);
    (0x1FB0, 0x1FB1, 1, 8); (0x1FBE, 0x1FBE, 1, (-7205)); (0x1FD0, 0x1FD1, 1, 8);
    (0x1FE0, 0x1FE1, 1, 8); (0x1FE5, 0x1FE5, 1, 7); (0x214E, 0x214E, 1, (-28));
    (0x2170, 0x217F, 1, (-16)); (0x2184, 0x2184, 1, (-1)); (0x24D0, 0x24E9, 1, (-26));
    (0x2C30, 0x2C5F, 1, (-48)); (0x2C61, 0x2C61, 1, (-1)); (0x2C65, 0x2C65, 1, (-10795));
    (0x2C66, 0x2C66, 1, (-10792)); (0x2C68, 0x2C6C, 2, (-1)); (0x2C73, 0x2C73, 1, (-1));
    (0x2C76, 0x2C76, 1, (-1)); (0x2C81, 0x2CE3, 2, (-1)); (0x2CEC, 0x2CEE, 2, (-1));
    (0x2CF3, 0x2CF3, 1, (-1)); (0x2D00, 0x2D25, 1, (-7264)); (0x2D27, 0x2D27, 1, (-7264));
    (0x2D2D, 0x2D2D, 1, (-7264)); (0xA641, 0xA66D, 2, (-1)); (0xA681, 0xA69B, 2, (-1));
    (0xA723, 0xA72F, 2, (-1)); (0xA733, 0xA76F, 2, (-1)); (0xA77A, 0xA77C, 2, (-1));
    (0xA77F, 0xA787, 2, (-1)); (0xA78C, 0xA78C, 1, (-1)); (0xA791, 0xA793, 2, (-1));
    (0xA794, 0xA794, 1, 48); (0xA797, 0xA7A9, 2, (-1)); (0xA7B5, 0xA7C3, 2, (-1));
    (0xA7C8, 0xA7CA, 2, (-1)); (0xA7D1, 0xA7D1, 1, (-1)); (0xA7D7, 0xA7D9, 2, (-1));
    (0xA7F6, 0xA7F6, 1, (-1)); (0xAB53, 0xAB53, 1, (-928)); (0xAB70, 0xABBF, 1, (-38864));
    (0xFF41, 0xFF5A, 1, (-32)); (0x10428, 0x1044F, 1, (-40)); (0x104D8, 0x104FB, 1, (-40));
    (0x10597, 0x105A1, 1, (-39)); (0x105A3, 0x105B1, 1, (-39)); (0x105B3, 0x105B9, 1, (-39));
    (0x105BB, 0x105BC, 1, (-39)); (0x10CC0, 0x10CF2, 1, (-64)); (0x118C0, 0x118DF, 1, (-32));
    (0x16E60, 0x16E7F, 1, (-32)); (0x1E922, 0x1E943, 1, (-34))
  ].

Fixpoint lookup_special (c : char) (t : list (char * str)) : option str :=
  match t with
  | [] => None
  | (k, u) :: t' => if c =? k then Some u else lookup_special c t'
  end.

Definition in_run (c : char) (r : Z * Z * Z * Z) : bool :=
  let '(first, last, step, _) := r in
  (first <=? c) && (c <=? last) && ((c - first) mod step =? 0).

Fixpoint lookup_simple (c : char) (t : list (Z * Z * Z * Z)) : option Z :=
  match t with
  | [] => None
  | r :: t' => if in_run c r then Some (c + snd r) else lookup_simple c t'
  end.

Definition upper_char (c : char) : str :=
  match lookup_special c special_casing with
  | Some u => u
  | None =>
    match lookup_simple c simple_upper with
    | Some u => [u]
    | None => [c]
    end
  end.

(** [s.upper()] *)
Definition upper (s : str) : str := List.flat_map upper_char s.


(** [f"{n:04X}"]: upper-case hexadecimal digits, zero-padded to four
    columns, the sign counting as one. *)
Definition format_04X (n : Z) : str :=
  if n <? 0 then lit "-" ++ zfill 3 (upper (hex_lower (- n)))
  else zfill 4 (upper (hex_lower n)).

(** [repr(s)] of a one-character string holding a code point of the Basic
    Multilingual Plane above U+00FF that is not printable: a quote, a
    backslash, [u], four lower-case hexadecimal digits, a quote.  The five
    code points of [CARACTERES_INVISIBLES] are of that kind (category Cf),
    and [detectar_invisibles] calls [repr] on no others. *)
Definition repr (c : char) : str :=
  lit "'" ++ [0x5C] ++ lit "u" ++ zfill 4 (hex_lower c) ++ lit "'".

End Py.

(** A loop that threads an accumulator and may raise in its body. *)
Fixpoint foldM {A B : Type} (f : B -> A -> res B) (l : list A) (acc : B) : res B :=
  match l with
  | [] => Ret acc
  | a :: l' => acc' <- f acc a ;; foldM f l' acc'
  end.

(** ** The module *)

Module Vigenere.
Import Py.

Definition TEXTO_DEMO : str := lit "ATAQUE AL AMANECER".
Definition CLAVE_DEMO : str := lit "CLAVE".

Definition MINIMO_CLAVE : Z := 3.
Definition CARACTERES_INVISIBLES : list char :=
  [0x200B; 0x200C; 0x200D; 0x2060; 0xFEFF].

Definition limpiar_texto (texto : str) : str :=
  let texto := upper texto in
  List.filter (contains ascii_uppercase) texto.

Definition detectar_invisibles (cadena : str) : list str :=
  List.fold_left
    (fun encontrados c =>
       if contains CARACTERES_INVISIBLES c then encontrados ++ [repr c]
       else encontrados)
    cadena [].

Definition normalizar_clave (clave : str) : str :=
  List.filter (contains ascii_uppercase) (upper clave).

Definition validar_datos (texto clave : str) : res (bool * str) :=
  (* 1 *)
  if negb (truthy clave) || negb (truthy (strip clave)) then
    Ret (false, lit "La clave no puede estar vacía.")
  else
  (* 2 *)
  let invisibles := detectar_invisibles clave in
  if truthy invisibles then
    partes <- mapM (fun c => n <- ord c ;; Ret (lit "U+" ++ format_04X n))
                   invisibles ;;
    let codigos := join (lit ", ") partes in
    Ret (false,
         lit "⚠️ La clave contiene caracteres invisibles o ilegales "
         ++ lit "(" ++ codigos ++ lit "). Revísala y vuelve a introducirla.")
  else
  (* 3 *)
  let clave_normalizada := normalizar_clave clave in
  if negb (truthy clave_normalizada) then
    Ret (false, lit "La clave debe contener al menos una letra A-Z.")
  else
  if len clave_normalizada <? MINIMO_CLAVE then
    Ret (false,
         lit "La clave debe tener al menos " ++ decimal MINIMO_CLAVE
         ++ lit " letras.")
  else
  (* 4 *)
  if negb (str_eqb clave_normalizada (upper clave)) then
    Ret (false,
         lit "⚠️ La clave contiene caracteres no válidos (solo se permiten letras A-Z)."
         ++ [0xA] ++ lit "Clave introducida: " ++ clave
         ++ [0xA] ++ lit "Parte válida de la clave sería: " ++ clave_normalizada)
  else
  (* 5 *)
  if negb (truthy texto) || negb (truthy (strip texto)) then
    Ret (false, lit "❌ El texto no puede estar vacío.")
  else
  let texto_limpio := limpiar_texto texto in
  if negb (truthy texto_limpio) then
    Ret (false, lit "El texto debe contener al menos una letra A-Z.")
  else
  Ret (true, []).

Definition ajustar_clave (texto clave : str) : res str :=
  let clave := normalizar_clave clave in
  if negb (truthy clave) then
    Raise (ValueError (lit "La clave no puede estar vacía."))
  else
  let repeticiones := len texto / len clave + 1 in
  Ret (prefix (times clave repeticiones) (len texto)).

Definition cifrar_vigenere (texto clave : str) : res str :=
  r <- validar_datos texto clave ;;
  let '(valido, mensaje) := r in
  if negb valido then Raise (ValueError mensaje) else
  let texto_limpio := limpiar_texto texto in
  clave_ajustada <- ajustar_clave texto_limpio clave ;;
  resultado <-
    foldM (fun resultado tk =>
             let '(t, k) := tk in
             ot <- ord [t] ;; oa <- ord (lit "A") ;;
             let nt := ot - oa in
             ok <- ord [k] ;; oa <- ord (lit "A") ;;
             let nk := ok - oa in
             let c := (nt + nk) mod 26 in
             oa <- ord (lit "A") ;;
             x <- chr (c + oa) ;;
             Ret (resultado ++ [[x]]))
          (zip texto_limpio clave_ajustada) [] ;;
  Ret (join [] resultado).

Definition AVISO_CLAVE : str :=
  lit "Posible clave incorrecta: el resultado no contiene letras legibles.".

(** The value returned, and the records handed to [logging.warning]. *)
Definition descifrar_vigenere (texto_cifrado clave : str) : res (str * list str) :=
  r <- validar_datos texto_cifrado clave ;;
  let '(valido, mensaje) := r in
  if negb valido then Raise (ValueError mensaje) else
  let texto_limpio := limpiar_texto texto_cifrado in
  clave_ajustada <- ajustar_clave texto_limpio clave ;;
  resultado <-
    foldM (fun resultado ck =>
             let '(c, k) := ck in
             oc <- ord [c] ;; oa <- ord (lit "A") ;;
             let nc := oc - oa in
             ok <- ord [k] ;; oa <- ord (lit "A") ;;
             let nk := ok - oa in
             let p := (nc - nk) mod 26 in
             oa <- ord (lit "A") ;;
             x <- chr (p + oa) ;;
             Ret (resultado ++ [[x]]))
          (zip texto_limpio clave_ajustada) [] ;;
  let texto_descifrado := join [] resultado in
  if negb (existsb (contains ascii_uppercase) texto_descifrado) then
    Ret (texto_descifrado, [AVISO_CLAVE])
  else
    Ret (texto_descifrado, []).

End Vigenere.


(** ** Files

    The file functions of the module, over an explicit state of the outside
    world.  Several paths can name one file ([x], [./x], an absolute path, a
    link): the operating system resolves a path to the file it names, and
    the disk holds one state for each resolved path.  A file is in one of
    three states: it does not exist (opening it for reading raises
    [FileNotFoundError]), it exists but cannot be opened for reading (a
    directory, a file without permission: another exception is raised), or
    it is a file with its bytes.  Whether a path can be opened for writing
    is a second table.  The states carry the text [str(e)] of the exception
    the operating system gives.  The calls to [logging] are recorded in
    order. *)

Module Archivos.
Import Py Vigenere.

Definition ruta : Type := str.

Inductive estado : Type :=
| NoExiste (e : str)
| Ilegible (e : str)
| Fichero (bytes : list Z).

Inductive nivel : Type := INFO | WARNING | ERROR.

Record mundo : Type := Mundo {
  resolver : ruta -> ruta;
  disco : ruta -> estado;
  error_escritura : ruta -> option str;
  linesep : str;
  registro : list (nivel * str)
}.

(** The state of the file a path names. *)
Definition ficheros (m : mundo) (path : ruta) : estado :=
  disco m (resolver m path).

(** [logging.info], [logging.warning], [logging.error] *)
Definition log (n : nivel) (mensaje : str) (m : mundo) : mundo :=
  {| resolver := resolver m;
     disco := disco m;
     error_escritura := error_escritura m;
     linesep := linesep m;
     registro := registro m ++ [(n, mensaje)] |}.

(** [os.path.exists(path)] *)
Definition existe (path : ruta) (m : mundo) : bool :=
  match ficheros m path with
  | NoExiste _ => false
  | _ => true
  end.

(** *** The codecs *)

Definition continuacion (b : Z) : bool := (0x80 <=? b) && (b <=? 0xBF).

(** The strict UTF-8 decoder: the well-formed byte sequences of the Unicode
    standard (no overlong form, no surrogate, nothing above U+10FFFF);
    [None] stands for [UnicodeDecodeError]. *)
Fixpoint decodificar_utf8 (bs : list Z) : option str :=
  match bs with
  | [] => Some []
  | b0 :: r0 =>
    if (0 <=? b0) && (b0 <=? 0x7F) then
      option_map (cons b0) (decodificar_utf8 r0)
    else if (0xC2 <=? b0) && (b0 <=? 0xDF) then
      match r0 with
      | b1 :: r1 =>
        if continuacion b1 then
          option_map (cons ((b0 - 0xC0) * 64 + (b1 - 0x80)))
                     (decodificar_utf8 r1)
        else None
      | _ => None
      end
    else if (0xE0 <=? b0) && (b0 <=? 0xEF) then
      match r0 with
      | b1 :: b2 :: r2 =>
        if ((if b0 =? 0xE0 then 0xA0 else 0x80) <=? b1)
           && (b1 <=? (if b0 =? 0xED then 0x9F else 0xBF))
           && continuacion b2 then
          option_map
            (cons ((b0 - 0xE0) * 4096 + (b1 - 0x80) * 64 + (b2 - 0x80)))
            (decodificar_utf8 r2)
        else None
      | _ => None
      end
    else if (0xF0 <=? b0) && (b0 <=? 0xF4) then
      match r0 with
      | b1 :: b2 :: b3 :: r3 =>
        if ((if b0 =? 0xF0 then 0x90 else 0x80) <=? b1)
           && (b1 <=? (if b0 =? 0xF4 then 0x8F else 0xBF))
           && continuacion b2 && continuacion b3 then
          option_map
            (cons ((b0 - 0xF0) * 262144 + (b1 - 0x80) * 4096
                   + (b2 - 0x80) * 64 + (b3 - 0x80)))
            (decodificar_utf8 r3)
        else None
      | _ => None
      end
    else None
  end.

(** Latin-1 gives every byte the code point of the same number. *)
Definition decodificar_latin1 (bs : list Z) : str := bs.

(** Reading in text mode turns ["\r\n"] and ["\r"] into ["\n"]. *)
Fixpoint saltos_universales (s : str) : str :=
  match s with
  | [] => []
  | c :: r =>
    if c =? 0xD then
      match r with
      | d :: r' => if d =? 0xA then 0xA :: saltos_universales r'
                   else 0xA :: saltos_universales r
      | [] => [0xA]
      end
    else c :: saltos_universales r
  end.

Definition sustituto (c : char) : bool := (0xD800 <=? c) && (c <=? 0xDFFF).

Definition codificar_caracter (c : char) : list Z :=
  if c <? 0x80 then [c]
  else if c <? 0x800 then [0xC0 + c / 64; 0x80 + c mod 64]
  else if c <? 0x10000 then
    [0xE0 + c / 4096; 0x80 + (c / 64) mod 64; 0x80 + c mod 64]
  else
    [0xF0 + c / 262144; 0x80 + (c / 4096) mod 64; 0x80 + (c / 64) mod 64;
     0x80 + c mod 64].

(** The strict UTF-8 encoder refuses the surrogates; [None] stands for
    [UnicodeEncodeError]. *)
Definition codificar_utf8 (s : str) : option (list Z) :=
  if existsb sustituto s then None
  else Some (List.flat_map codificar_caracter s).

Fixpoint mientras (p : char -> bool) (s : str) : str :=
  match s with
  | [] => []
  | c :: r => if p c then c :: mientras p r else []
  end.

(** [str(e)] of the [UnicodeEncodeError]: the first surrogate and the
    position of the run of surrogates it starts. *)
Fixpoint texto_UnicodeEncodeError (s : str) (i : Z) : str :=
  match s with
  | [] => []
  | c :: r =>
    if sustituto c then
      let j := i + len (mientras sustituto r) in
      if j =? i then
        lit "'utf-8' codec can't encode character '" ++ [0x5C] ++ lit "u"
        ++ zfill 4 (hex_lower c) ++ lit "' in position " ++ decimal i
        ++ lit ": surrogates not allowed"
      else
        lit "'utf-8' codec can't encode characters in position "
        ++ decimal i ++ lit "-" ++ decimal j
        ++ lit ": surrogates not allowed"
    else texto_UnicodeEncodeError r (i + 1)
  end.

(** *** [open], [read] and [write] *)

Inductive excepcion : Type :=
| FileNotFoundError (e : str)
| Exception (e : str).

(** [open(path, "r", encoding=...)]: the bytes of the file, or the
    exception raised. *)
Definition abrir_lectura (path : ruta) (m : mundo) : excepcion + list Z :=
  match ficheros m path with
  | NoExiste e => inl (FileNotFoundError e)
  | Ilegible e => inl (Exception e)
  | Fichero bytes => inr bytes
  end.

(** The file that [path] names gets new bytes; a file that cannot be read
    stays so. *)
Definition poner (path : ruta) (bytes : list Z) (m : mundo) : mundo :=
  {| resolver := resolver m;
     disco := fun q =>
       if str_eqb q (resolver m path) then
         match disco m (resolver m path) with
         | Ilegible e => Ilegible e
         | _ => Fichero bytes
         end
       else disco m q;
     error_escritura := error_escritura m;
     linesep := linesep m;
     registro := registro m |}.

(** [with open(path, "w", encoding="utf-8") as f: f.write(contenido)]:
    opening creates or empties the file; writing turns every ["\n"] into
    [os.linesep] and encodes the text in one piece, so that nothing is
    written when the encoder refuses it.  The result is the text of the
    exception raised, if any. *)
Definition abrir_y_escribir (path : ruta) (contenido : str) (m : mundo)
  : option str * mundo :=
  match error_escritura m path with
  | Some e => (Some e, m)
  | None =>
    let texto :=
      List.flat_map (fun c => if c =? 0xA then linesep m else [c]) contenido in
    match codificar_utf8 texto with
    | Some bytes => (None, poner path bytes m)
    | None => (Some (texto_UnicodeEncodeError texto 0), poner path [] m)
    end
  end.

(** *** The functions of the module *)

Definition leer_fichero (path : ruta) (m : mundo) : str * mundo :=
  match abrir_lectura path m with
  | inr bytes =>
    match decodificar_utf8 bytes with
    | Some texto => (saltos_universales texto, m)
    | None =>
      let m := log WARNING
                 (path ++ lit " no está en UTF-8, probando Latin-1...") m in
      match abrir_lectura path m with
      | inr bytes => (saltos_universales (decodificar_latin1 bytes), m)
      | inl (FileNotFoundError e) | inl (Exception e) =>
        ([], log ERROR (lit "No se pudo leer " ++ path ++ lit ": " ++ e) m)
      end
    end
  | inl (FileNotFoundError _) =>
    ([], log ERROR (lit "El fichero " ++ path ++ lit " no existe.") m)
  | inl (Exception e) =>
    ([], log ERROR (lit "No se pudo leer " ++ path ++ lit ": " ++ e) m)
  end.

Definition escribir_fichero (path : ruta) (contenido : str) (m : mundo) : mundo :=
  match abrir_y_escribir path contenido m with
  | (None, m) => log INFO (lit "Fichero escrito en " ++ path) m
  | (Some e, m) =>
    log ERROR (lit "No se pudo escribir en " ++ path ++ lit ": " ++ e) m
  end.

(** The two functions return [None]; an exception they do not catch (the
    [TypeError] of the validator) leaves them. *)
Definition cifrar_archivo (ruta_entrada ruta_salida clave : str) (m : mundo)
  : res unit * mundo :=
  if negb (existe ruta_entrada m) then
    (Ret tt, log ERROR (lit "El archivo de entrada no existe.") m)
  else
  let '(contenido, m) := leer_fichero ruta_entrada m in
  if negb (truthy contenido) then
    (Ret tt, log ERROR (lit "No se pudo leer el archivo de entrada.") m)
  else
  match cifrar_vigenere contenido clave with
  | Ret cifrado => (Ret tt, escribir_fichero ruta_salida cifrado m)
  | Raise (ValueError e) => (Ret tt, log ERROR e m)
  | Raise TypeError => (Raise TypeError, m)
  end.

Definition descifrar_archivo (ruta_entrada ruta_salida clave : str) (m : mundo)
  : res unit * mundo :=
  if negb (existe ruta_entrada m) then
    (Ret tt, log ERROR (lit "El archivo cifrado no existe.") m)
  else
  let '(contenido, m) := leer_fichero ruta_entrada m in
  if negb (truthy contenido) then
    (Ret tt, log ERROR (lit "No se pudo leer el archivo cifrado.") m)
  else
  match descifrar_vigenere contenido clave with
  | Ret (descifrado, avisos) =>
    let m := List.fold_left (fun m aviso => log WARNING aviso m) avisos m in
    (Ret tt, escribir_fichero ruta_salida descifrado m)
  | Raise (ValueError e) => (Ret tt, log ERROR e m)
  | Raise TypeError => (Raise TypeError, m)
  end.

End Archivos.

(** * Vocabulary of the properties

    Predicates and functions the statements below are written with; none of
    them is part of the module. *)

Module Vocabulary.
Import Py Vigenere.

(** The letters A-Z, as a range of code points. *)
Definition isAZ (c : char) : bool := (65 <=? c) && (c <=? 90).

(** The letters a-z and A-Z. *)
Definition is_ascii_letter (c : char) : bool :=
  isAZ c || ((97 <=? c) && (c <=? 122)).

(** Upper-casing of an ASCII letter. *)
Definition ascii_upper (c : char) : char :=
  if (97 <=? c) && (c <=? 122) then c - 32 else c.

(** The code points outside ASCII whose upper-case form holds a letter A-Z:
    sharp s, dotless i, n preceded by apostrophe, long s, j with caron,
    h with line below, t with diaeresis, w and y with ring above, a with
    right half ring, and the ligatures ff, fi, fl, ffi, ffl, long s t, st. *)
Definition exceptional : list char :=
  [0xDF; 0x131; 0x149; 0x17F; 0x1F0; 0x1E96; 0x1E97; 0x1E98; 0x1E99; 0x1E9A;
   0xFB00; 0xFB01; 0xFB02; 0xFB03; 0xFB04; 0xFB05; 0xFB06].

(** Checks run over the two tables of [str.upper]: a special casing with a
    letter A-Z in it belongs to an exceptional code point. *)
Definition special_ok (e : char * str) : bool :=
  negb (existsb isAZ (snd e)) || existsb (Z.eqb (fst e)) exceptional.

(** A run of simple mappings either misses A-Z altogether, or is the run
    a-z, or is the single mapping of an exceptional code point (dotless i,
    long s). *)
Definition run_ok (r : Z * Z * Z * Z) : bool :=
  let '(first, last, step, delta) := r in
  (last + delta <? 65) || (90 <? first + delta)
  || ((first =? 97) && (last =? 122) && (delta =? -32))
  || ((first =? last) && existsb (Z.eqb first) exceptional).

(** A string of letters A-Z only. *)
Definition all_AZ (s : str) : bool := forallb isAZ s.

(** The test [not s or not s.strip()]: [s] is empty or holds white space
    only. *)
Definition blank (s : str) : bool := forallb isspace s.

(** The key [ajustar_clave] returns when the normalised key is not empty. *)
Definition expandida (texto clave : str) : str :=
  let k := normalizar_clave clave in
  prefix (times k (len texto / len k + 1)) (len texto).

(** The letter each loop writes at one position, from a letter of the
    text and a letter of the key. *)
Definition enc (tk : char * char) : char :=
  ((fst tk - 65) + (snd tk - 65)) mod 26 + 65.

Definition dec (ck : char * char) : char :=
  ((fst ck - 65) - (snd ck - 65)) mod 26 + 65.

(** [c in CARACTERES_INVISIBLES] *)
Definition invisible (c : char) : bool := contains CARACTERES_INVISIBLES c.

(** The key passes checks 1 to 5, the text checks 6 and 7. *)
Definition clave_ok (clave : str) : bool :=
  negb (blank clave) && negb (existsb invisible clave)
  && truthy (normalizar_clave clave)
  && negb (len (normalizar_clave clave) <? MINIMO_CLAVE)
  && str_eqb (normalizar_clave clave) (upper clave).

Definition texto_ok (texto : str) : bool :=
  negb (blank texto) && truthy (limpiar_texto texto).

(** The strings the two cipher functions build once validation has
    passed. *)
Definition cifrado (texto clave : str) : str :=
  List.map enc (zip (limpiar_texto texto) (expandida (limpiar_texto texto) clave)).

Definition descifrado (texto clave : str) : str :=
  List.map dec (zip (limpiar_texto texto) (expandida (limpiar_texto texto) clave)).

(** Validation succeeds: [validar_datos] returns [True] as its first
    component. *)
Definition valido (texto clave : str) : Prop :=
  exists mensaje, validar_datos texto clave = Ret (true, mensaje).

(** The seven checks of the validator, as the specification lists them. *)
Inductive reason : Type :=
| EmptyKey
| InvisibleCharacters
| KeyNoLetters
| KeyTooShort
| KeyInvalidCharacters
| EmptyText
| TextNoLetters.

(** Each check with the condition under which it fails, in the stated
    order. *)
Definition checks (texto clave : str) : list (reason * bool) :=
  [ (EmptyKey, blank clave);
    (InvisibleCharacters, existsb invisible clave);
    (KeyNoLetters, str_eqb (normalizar_clave clave) []);
    (KeyTooShort, len (normalizar_clave clave) <? MINIMO_CLAVE);
    (KeyInvalidCharacters, negb (str_eqb (normalizar_clave clave) (upper clave)));
    (EmptyText, blank texto);
    (TextNoLetters, str_eqb (limpiar_texto texto) []) ].

(** The first check that fails, if any. *)
Definition first_failure (texto clave : str) : option reason :=
  option_map fst (List.find snd (checks texto clave)).

(** The message the source gives for each reason; for the invisible
    characters, the one it is written to build, with each offending code
    point as [U+XXXX]. *)
Definition mensaje_de (r : reason) (clave : str) : str :=
  match r with
  | EmptyKey => lit "La clave no puede estar vacía."
  | InvisibleCharacters =>
      lit "⚠️ La clave contiene caracteres invisibles o ilegales ("
      ++ join (lit ", ")
           (List.map (fun c => lit "U+" ++ format_04X c)
                     (List.filter invisible clave))
      ++ lit "). Revísala y vuelve a introducirla."
  | KeyNoLetters => lit "La clave debe contener al menos una letra A-Z."
  | KeyTooShort => lit "La clave debe tener al menos 3 letras."
  | KeyInvalidCharacters =>
      lit "⚠️ La clave contiene caracteres no válidos (solo se permiten letras A-Z)."
      ++ [0xA] ++ lit "Clave introducida: " ++ clave
      ++ [0xA] ++ lit "Parte válida de la clave sería: " ++ normalizar_clave clave
  | EmptyText => lit "❌ El texto no puede estar vacío."
  | TextNoLetters => lit "El texto debe contener al menos una letra A-Z."
  end.

(** A world for the examples: the demonstration text in [mensaje.txt],
    which [./mensaje.txt] names too (a leading [./] is dropped), every path
    writable, POSIX line ends, nothing logged yet. *)
Definition mundo_demo : Archivos.mundo :=
  {| Archivos.resolver := fun p =>
       match p with
       | 0x2E :: 0x2F :: r => r
       | _ => p
       end;
     Archivos.disco := fun q =>
       if str_eqb q (lit "mensaje.txt") then Archivos.Fichero TEXTO_DEMO
       else Archivos.NoExiste (lit "[Errno 2] No such file or directory");
     Archivos.error_escritura := fun _ => None;
     Archivos.linesep := [0xA];
     Archivos.registro := [] |}.

(** A code point the strict encoder accepts. *)
Definition codificable (c : char) : bool :=
  (0 <=? c) && (c <? 0x110000) && negb (Archivos.sustituto c).

(** A text the strict encoder accepts and reading gives back unchanged:
    code points of the Unicode range, no surrogate, no carriage return. *)
Definition escalar (c : char) : bool :=
  (0 <=? c) && (c <? 0x110000) && negb (Archivos.sustituto c) && negb (c =? 0xD).

End Vocabulary.

(** * Properties *)

(** ** Facts about the runtime *)

Module PyFacts.
Import Py Vocabulary.

#[global] Arguments isspace : simpl never.
#[global] Arguments contains : simpl never.
#[global] Arguments upper_char : simpl never.
#[global] Arguments ascii_uppercase : simpl never.

Lemma isAZ_spec c : isAZ c = true <-> 65 <= c <= 90.
Proof. unfold isAZ. rewrite andb_true_iff, Z.leb_le, Z.leb_le. tauto. Qed.

Lemma ascii_uppercase_eq :
  ascii_uppercase =
  [65; 66; 67; 68; 69; 70; 71; 72; 73; 74; 75; 76; 77; 78; 79; 80; 81; 82; 83;
   84; 85; 86; 87; 88; 89; 90].
Proof. vm_compute. reflexivity. Qed.

Lemma contains_ascii_uppercase c : contains ascii_uppercase c = isAZ c.
Proof.
  unfold contains. rewrite ascii_uppercase_eq.
  apply eq_true_iff_eq. rewrite isAZ_spec. cbn [existsb].
  rewrite !orb_true_iff, !Z.eqb_eq. lia.
Qed.

Lemma existsb_eqb_In (l : list Z) c : existsb (Z.eqb c) l = true <-> In c l.
Proof.
  rewrite existsb_exists. split.
  - intros [x [Hx He]]. apply Z.eqb_eq in He. now subst.
  - intros H. exists c. split; [assumption | apply Z.eqb_refl].
Qed.

Lemma str_eqb_eq a b : str_eqb a b = true <-> a = b.
Proof.
  revert b. induction a as [|x a IH]; destruct b as [|y b]; cbn;
    try (split; [discriminate | discriminate]); try tauto.
  rewrite andb_true_iff, Z.eqb_eq, IH. split.
  - intros [-> ->]. reflexivity.
  - intros H. injection H. tauto.
Qed.

(** A boolean property checked on every point of a range holds on it. *)
Lemma range_forallb (P : Z -> bool) (lo : Z) (n : nat) :
  forallb P (List.map (fun i => lo + Z.of_nat i) (seq 0 n)) = true ->
  forall c, lo <= c < lo + Z.of_nat n -> P c = true.
Proof.
  intros H c Hc. rewrite forallb_forall in H. apply H.
  apply in_map_iff. exists (Z.to_nat (c - lo)). split; [lia|].
  apply in_seq. lia.
Qed.

(** *** [upper] *)

Lemma upper_char_AZ c : isAZ c = true -> upper_char c = [c].
Proof.
  intros H. apply isAZ_spec in H. apply str_eqb_eq.
  apply (@range_forallb (fun c => str_eqb (upper_char c) [c]) 65 26%nat);
    [vm_compute; reflexivity | lia].
Qed.

Lemma upper_char_az c : 97 <= c <= 122 -> upper_char c = [c - 32].
Proof.
  intros H. apply str_eqb_eq.
  apply (@range_forallb (fun c => str_eqb (upper_char c) [c - 32]) 97 26%nat);
    [vm_compute; reflexivity | lia].
Qed.

Lemma lookup_special_In c t u :
  lookup_special c t = Some u -> In (c, u) t.
Proof.
  induction t as [|[k v] t IH]; cbn; [discriminate|].
  destruct (Z.eqb_spec c k) as [->|_].
  - intros [= ->]. now left.
  - intros H. right. now apply IH.
Qed.

Lemma lookup_simple_In c t u :
  lookup_simple c t = Some u ->
  exists r, In r t /\ in_run c r = true /\ u = c + snd r.
Proof.
  induction t as [|r t IH]; cbn; [discriminate|].
  destruct (in_run c r) eqn:E.
  - intros [= <-]. exists r. auto.
  - intros H. destruct (IH H) as [r' [? ?]]. exists r'. auto.
Qed.

Lemma special_casing_ok : forallb special_ok special_casing = true.
Proof. vm_compute. reflexivity. Qed.

Lemma simple_upper_ok : forallb run_ok simple_upper = true.
Proof. vm_compute. reflexivity. Qed.

Lemma upper_char_letter c x :
  In x (upper_char c) -> isAZ x = true ->
  is_ascii_letter c = true \/ In c exceptional.
Proof.
  unfold upper_char. destruct (lookup_special c special_casing) as [u|] eqn:Es.
  - intros Hx Hz. right. apply lookup_special_In in Es.
    pose proof special_casing_ok as Hok. rewrite forallb_forall in Hok.
    specialize (Hok _ Es). unfold special_ok in Hok. cbn [fst snd] in Hok.
    apply orb_true_iff in Hok. destruct Hok as [Hn|He].
    + apply negb_true_iff in Hn.
      assert (existsb isAZ u = true) by (apply existsb_exists; eauto).
      congruence.
    + now apply existsb_eqb_In.
  - destruct (lookup_simple c simple_upper) as [v|] eqn:Ev.
    + intros [<-|[]] Hz. apply lookup_simple_In in Ev.
      destruct Ev as [[[[first last] step] delta] [Hin [Hrun ->]]].
      pose proof simple_upper_ok as Hok. rewrite forallb_forall in Hok.
      specialize (Hok _ Hin). cbn [snd] in Hz. apply isAZ_spec in Hz.
      unfold in_run in Hrun. unfold run_ok in Hok.
      repeat rewrite andb_true_iff in Hrun. destruct Hrun as [[H1 H2] _].
      apply Z.leb_le in H1, H2.
      repeat rewrite orb_true_iff in Hok.
      destruct Hok as [[[Hok|Hok]|Hok]|Hok].
      * apply Z.ltb_lt in Hok. lia.
      * apply Z.ltb_lt in Hok. lia.
      * repeat rewrite andb_true_iff in Hok. destruct Hok as [[Ha Hb] _].
        apply Z.eqb_eq in Ha, Hb. left. unfold is_ascii_letter.
        apply orb_true_iff. right. apply andb_true_iff.
        rewrite !Z.leb_le. lia.
      * apply andb_true_iff in Hok. destruct Hok as [Ha Hb].
        apply Z.eqb_eq in Ha. apply existsb_eqb_In in Hb.
        right. replace c with first by lia. assumption.
    + intros [<-|[]] Hz. left. unfold is_ascii_letter. now rewrite Hz.
Qed.

Lemma upper_all_AZ s : all_AZ s = true -> upper s = s.
Proof.
  unfold upper, all_AZ. induction s as [|c s IH]; cbn; [reflexivity|].
  rewrite andb_true_iff. intros [Hc Hs].
  rewrite (upper_char_AZ c Hc), (IH Hs). reflexivity.
Qed.

Lemma filter_all_AZ s :
  all_AZ s = true -> List.filter (contains ascii_uppercase) s = s.
Proof.
  unfold all_AZ. induction s as [|c s IH]; cbn [List.filter forallb]; [reflexivity|].
  rewrite andb_true_iff. intros [Hc Hs].
  rewrite contains_ascii_uppercase, Hc, (IH Hs). reflexivity.
Qed.

Lemma all_AZ_filter s : all_AZ (List.filter (contains ascii_uppercase) s) = true.
Proof.
  unfold all_AZ. apply forallb_forall. intros c Hc.
  apply filter_In in Hc. destruct Hc as [_ Hc].
  now rewrite contains_ascii_uppercase in Hc.
Qed.

(** *** [strip] and truthiness *)

Lemma truthy_false {A : Type} (s : list A) : truthy s = false <-> s = [].
Proof. destruct s; cbn; split; congruence. Qed.

Lemma truthy_true {A : Type} (s : list A) : truthy s = true <-> s <> [].
Proof. destruct s; cbn; split; congruence. Qed.

Lemma lstrip_nil s : lstrip s = [] <-> forallb isspace s = true.
Proof.
  induction s as [|c s IH]; cbn; [tauto|].
  destruct (isspace c); cbn; [exact IH | split; discriminate].
Qed.

Lemma lstrip_head s c r : lstrip s = c :: r -> isspace c = false.
Proof.
  induction s as [|d s IH]; cbn; [discriminate|].
  destruct (isspace d) eqn:E; [exact IH | intros [= <- _]; exact E].
Qed.

Lemma strip_nil s : strip s = [] <-> forallb isspace s = true.
Proof.
  unfold strip. split.
  - intros H.
    assert (H1 : lstrip (rev (lstrip s)) = []).
    { destruct (lstrip (rev (lstrip s))); [reflexivity|].
      cbn in H. apply app_eq_nil in H. destruct H; discriminate. }
    apply lstrip_nil in H1. apply lstrip_nil.
    destruct (lstrip s) as [|c r] eqn:E; [reflexivity|].
    apply lstrip_head in E. rewrite forallb_forall in H1.
    rewrite (H1 c) in E; [discriminate|].
    apply in_rev. rewrite rev_involutive. now left.
  - intros H. apply lstrip_nil in H. rewrite H. reflexivity.
Qed.

Lemma blank_test s :
  negb (truthy s) || negb (truthy (strip s)) = blank s.
Proof.
  unfold blank. apply eq_true_iff_eq.
  rewrite orb_true_iff, !negb_true_iff, !truthy_false, strip_nil. split.
  - intros [->|H]; [reflexivity | assumption].
  - auto.
Qed.

Lemma isAZ_not_space c : isAZ c = true -> isspace c = false.
Proof.
  intros H. apply isAZ_spec in H.
  destruct (isspace c) eqn:E; [|reflexivity].
  unfold isspace in E. apply existsb_eqb_In in E. cbn in E. lia.
Qed.

Lemma all_AZ_not_blank s : all_AZ s = true -> s <> [] -> blank s = false.
Proof.
  destruct s as [|c s]; [congruence|]. unfold all_AZ, blank. cbn.
  rewrite andb_true_iff. intros [Hc _] _.
  now rewrite (isAZ_not_space c Hc).
Qed.

End PyFacts.

(** ** Facts about the module *)

Module VigenereFacts.
Import Py Vigenere Vocabulary PyFacts.

(** *** Normalisation *)

Lemma limpiar_texto_all_AZ t : all_AZ (limpiar_texto t) = true.
Proof. apply all_AZ_filter. Qed.

Lemma limpiar_texto_fixed s : all_AZ s = true -> limpiar_texto s = s.
Proof.
  intros H. unfold limpiar_texto.
  now rewrite (upper_all_AZ s H), (filter_all_AZ s H).
Qed.

Lemma normalizar_clave_all_AZ k : all_AZ (normalizar_clave k) = true.
Proof. apply all_AZ_filter. Qed.

(** *** Key expansion *)

Lemma length_times (k : str) (m : nat) :
  List.length (List.concat (repeat k m)) = (m * List.length k)%nat.
Proof.
  induction m as [|m IH]; cbn; [reflexivity|].
  now rewrite length_app, IH.
Qed.

Lemma nth_times (k : str) (m i : nat) d :
  (i < m * List.length k)%nat ->
  nth i (List.concat (repeat k m)) d = nth (i mod List.length k) k d.
Proof.
  revert i. induction m as [|m IH]; intros i Hi; [cbn in Hi; lia|].
  cbn [repeat List.concat].
  destruct (Nat.lt_ge_cases i (List.length k)) as [Hlt|Hge].
  - rewrite app_nth1 by assumption. now rewrite Nat.mod_small.
  - rewrite app_nth2 by lia. rewrite IH by (cbn in Hi; lia).
    replace i with ((i - List.length k) + 1 * List.length k)%nat at 2 by lia.
    now rewrite Nat.Div0.mod_add.
Qed.

Lemma ajustar_clave_Ret texto clave :
  normalizar_clave clave <> [] ->
  ajustar_clave texto clave = Ret (expandida texto clave).
Proof.
  intros H. unfold ajustar_clave, expandida.
  destruct (normalizar_clave clave); [congruence | reflexivity].
Qed.

Lemma expandida_nat texto clave :
  expandida texto clave =
  firstn (List.length texto)
    (List.concat (repeat (normalizar_clave clave)
       (List.length texto / List.length (normalizar_clave clave) + 1)%nat)).
Proof.
  unfold expandida, prefix, times, len.
  rewrite Nat2Z.id, <- Nat2Z.inj_div.
  replace (Z.of_nat (List.length texto / List.length (normalizar_clave clave)) + 1)
    with (Z.of_nat (List.length texto / List.length (normalizar_clave clave) + 1))
    by lia.
  now rewrite Nat2Z.id.
Qed.

Lemma repeticiones_bastan (a b : nat) : b <> 0%nat -> (a < (a / b + 1) * b)%nat.
Proof.
  intros Hb. pose proof (Nat.div_mod_eq a b) as E.
  pose proof (Nat.mod_upper_bound a b Hb). nia.
Qed.

Lemma length_expandida texto clave :
  normalizar_clave clave <> [] ->
  List.length (expandida texto clave) = List.length texto.
Proof.
  intros H. rewrite expandida_nat. apply firstn_length_le.
  rewrite length_times.
  assert (List.length (normalizar_clave clave) <> 0%nat)
    by (destruct (normalizar_clave clave); cbn; congruence).
  pose proof (repeticiones_bastan (List.length texto) _ H0). lia.
Qed.

Lemma nth_expandida texto clave (i : nat) d :
  normalizar_clave clave <> [] ->
  (i < List.length texto)%nat ->
  nth i (expandida texto clave) d =
  nth (i mod List.length (normalizar_clave clave)) (normalizar_clave clave) d.
Proof.
  intros H Hi. rewrite expandida_nat, nth_firstn.
  destruct (Nat.ltb_spec i (List.length texto)) as [_|]; [|lia].
  apply nth_times.
  assert (List.length (normalizar_clave clave) <> 0%nat)
    by (destruct (normalizar_clave clave); cbn; congruence).
  pose proof (repeticiones_bastan (List.length texto) _ H0). lia.
Qed.

(** *** The two loops *)

Lemma letter_range x : 65 <= x mod 26 + 65 <= 90.
Proof. pose proof (Z.mod_pos_bound x 26). lia. Qed.

Lemma chr_letter x : chr (x mod 26 + 65) = Ret (x mod 26 + 65).
Proof.
  unfold chr. pose proof (letter_range x).
  destruct (Z.leb_spec 0 (x mod 26 + 65)); [|lia].
  destruct (Z.ltb_spec (x mod 26 + 65) 0x110000); [reflexivity | lia].
Qed.

Lemma foldM_append {A B : Type} (f : list B -> A -> res (list B)) (g : A -> B) l acc :
  (forall acc a, f acc a = Ret (acc ++ [g a])) ->
  foldM f l acc = Ret (acc ++ List.map g l).
Proof.
  intros Hf. revert acc. induction l as [|a l IH]; intros acc; cbn.
  - now rewrite app_nil_r.
  - rewrite Hf. cbn. rewrite IH, <- app_assoc. reflexivity.
Qed.

Lemma join_singletons {A : Type} (g : A -> char) l :
  join [] (List.map (fun a => [g a]) l) = List.map g l.
Proof.
  induction l as [|a l IH]; [reflexivity|].
  cbn [List.map join]. destruct (List.map (fun a => [g a]) l) eqn:E.
  - destruct l; [reflexivity | discriminate].
  - cbn [app]. now rewrite <- IH.
Qed.

Lemma all_AZ_map_enc l : all_AZ (List.map enc l) = true.
Proof.
  unfold all_AZ. apply forallb_forall. intros x Hx.
  apply in_map_iff in Hx. destruct Hx as [tk [<- _]].
  apply isAZ_spec. apply letter_range.
Qed.

Lemma all_AZ_map_dec l : all_AZ (List.map dec l) = true.
Proof.
  unfold all_AZ. apply forallb_forall. intros x Hx.
  apply in_map_iff in Hx. destruct Hx as [tk [<- _]].
  apply isAZ_spec. apply letter_range.
Qed.

Lemma dec_enc t k : isAZ t = true -> dec (enc (t, k), k) = t.
Proof.
  intros H. apply isAZ_spec in H. unfold dec, enc. cbn [fst snd].
  replace (((t - 65 + (k - 65)) mod 26 + 65 - 65 - (k - 65)))
    with ((t - 65 + (k - 65)) mod 26 - (k - 65)) by lia.
  rewrite Zminus_mod_idemp_l.
  replace (t - 65 + (k - 65) - (k - 65)) with (t - 65) by lia.
  rewrite Z.mod_small; lia.
Qed.

Lemma map_dec_enc t k :
  all_AZ t = true -> List.length k = List.length t ->
  List.map dec (zip (List.map enc (zip t k)) k) = t.
Proof.
  unfold zip, all_AZ. revert k.
  induction t as [|a t IH]; intros [|b k]; cbn [List.length]; try discriminate;
    [reflexivity|].
  cbn [forallb combine List.map]. rewrite andb_true_iff.
  intros [Ha Ht] Hl. rewrite (dec_enc a b Ha). f_equal. apply IH; [assumption | lia].
Qed.

(** *** Invisible characters *)

Lemma detectar_invisibles_filter cadena :
  detectar_invisibles cadena = List.map repr (List.filter invisible cadena).
Proof.
  unfold detectar_invisibles.
  enough (H : forall acc,
    fold_left
      (fun encontrados c =>
         if contains CARACTERES_INVISIBLES c then encontrados ++ [repr c]
         else encontrados) cadena acc
    = acc ++ List.map repr (List.filter invisible cadena)) by apply (H []).
  induction cadena as [|c r IH]; intros acc; cbn [fold_left List.filter List.map].
  - now rewrite app_nil_r.
  - rewrite IH. unfold invisible at 2.
    destruct (contains CARACTERES_INVISIBLES c); [|reflexivity].
    cbn [List.map]. now rewrite <- app_assoc.
Qed.

Lemma truthy_detectar_invisibles cadena :
  truthy (detectar_invisibles cadena) = existsb invisible cadena.
Proof.
  rewrite detectar_invisibles_filter.
  induction cadena as [|c r IH]; [reflexivity|].
  cbn [List.filter existsb]. destruct (invisible c); [reflexivity | exact IH].
Qed.

Lemma ord_repr c : ord (repr c) = Raise TypeError.
Proof. reflexivity. Qed.

(** The codes of check 2 are never produced: [ord] is applied to the
    [repr] strings, which are longer than one character. *)
Lemma codigos_raise cadena :
  truthy (detectar_invisibles cadena) = true ->
  mapM (fun c => n <- ord c ;; Ret (lit "U+" ++ format_04X n))
       (detectar_invisibles cadena) = Raise TypeError.
Proof.
  rewrite detectar_invisibles_filter.
  destruct (List.filter invisible cadena) as [|c r]; [discriminate|].
  intros _. cbn [List.map mapM]. rewrite ord_repr. reflexivity.
Qed.

(** *** Validation *)

Ltac absurd_case :=
  split; [discriminate | intros [? [? ?]]; discriminate].

Lemma validar_datos_true texto clave m :
  validar_datos texto clave = Ret (true, m) <->
  clave_ok clave = true /\ texto_ok texto = true /\ m = [].
Proof.
  unfold validar_datos, clave_ok, texto_ok.
  rewrite !blank_test, truthy_detectar_invisibles.
  destruct (blank clave); cbn [negb andb]; [absurd_case|].
  destruct (existsb invisible clave) eqn:Einv; cbn [negb andb].
  { rewrite codigos_raise by now rewrite truthy_detectar_invisibles.
    cbn [bind]. absurd_case. }
  destruct (truthy (normalizar_clave clave)); cbn [negb andb]; [|absurd_case].
  destruct (len (normalizar_clave clave) <? MINIMO_CLAVE); cbn [negb andb];
    [absurd_case|].
  destruct (str_eqb (normalizar_clave clave) (upper clave)); cbn [negb andb];
    [|absurd_case].
  destruct (blank texto); cbn [negb andb]; [absurd_case|].
  destruct (truthy (limpiar_texto texto)); cbn [negb andb]; [|absurd_case].
  split; [intros [= <-]; auto | intros [_ [_ ->]]; reflexivity].
Qed.

(** The validator raises nothing but the [TypeError] of check 2. *)
Lemma validar_datos_raise texto clave e :
  validar_datos texto clave = Raise e <->
  e = TypeError /\ blank clave = false /\ existsb invisible clave = true.
Proof.
  unfold validar_datos.
  rewrite !blank_test, truthy_detectar_invisibles.
  destruct (blank clave); cbn [negb andb];
    [split; [discriminate | intros [_ [? _]]; discriminate]|].
  destruct (existsb invisible clave) eqn:Einv; cbn [negb andb].
  { rewrite codigos_raise by now rewrite truthy_detectar_invisibles.
    cbn [bind]. split; [intros [= <-]; auto | intros [-> _]; reflexivity]. }
  repeat match goal with
  | |- context [if ?b then _ else _] => destruct b
  end; split; try discriminate; intros [_ [_ ?]]; discriminate.
Qed.

Lemma clave_ok_normalizada clave :
  clave_ok clave = true -> normalizar_clave clave <> [].
Proof.
  unfold clave_ok. rewrite !andb_true_iff. intros [[[_ H] _] _].
  now apply truthy_true.
Qed.

Lemma texto_ok_limpio texto :
  texto_ok texto = true -> limpiar_texto texto <> [].
Proof.
  unfold texto_ok. rewrite andb_true_iff. intros [_ H]. now apply truthy_true.
Qed.

Lemma texto_ok_all_AZ s : all_AZ s = true -> s <> [] -> texto_ok s = true.
Proof.
  intros Hs Hn. unfold texto_ok.
  rewrite (all_AZ_not_blank s Hs Hn), (limpiar_texto_fixed s Hs).
  now apply truthy_true in Hn as ->.
Qed.

(** *** What the two cipher functions return on validated input *)

Lemma cifrar_vigenere_valid texto clave :
  clave_ok clave = true -> texto_ok texto = true ->
  cifrar_vigenere texto clave = Ret (cifrado texto clave).
Proof.
  intros Hk Ht. unfold cifrar_vigenere.
  rewrite (proj2 (validar_datos_true texto clave [])) by auto.
  cbn [bind negb]. rewrite (ajustar_clave_Ret _ _ (clave_ok_normalizada _ Hk)).
  cbn [bind]. rewrite (foldM_append _ (fun tk => [enc tk])).
  - cbn [bind app]. now rewrite join_singletons.
  - intros acc [t k]. change (ord (lit "A")) with (Ret 65).
    cbn [ord bind]. rewrite chr_letter. reflexivity.
Qed.

Lemma length_zip_expandida texto clave :
  normalizar_clave clave <> [] ->
  List.length (zip texto (expandida texto clave)) = List.length texto.
Proof.
  intros H. unfold zip. rewrite length_combine, (length_expandida _ _ H). lia.
Qed.

Lemma existsb_all_AZ s :
  all_AZ s = true -> s <> [] -> existsb (contains ascii_uppercase) s = true.
Proof.
  destruct s as [|c s]; [congruence|]. unfold all_AZ. cbn [forallb existsb].
  rewrite andb_true_iff, contains_ascii_uppercase. intros [-> _] _. reflexivity.
Qed.

Lemma descifrar_vigenere_valid texto clave :
  clave_ok clave = true -> texto_ok texto = true ->
  descifrar_vigenere texto clave = Ret (descifrado texto clave, []).
Proof.
  intros Hk Ht. unfold descifrar_vigenere.
  rewrite (proj2 (validar_datos_true texto clave [])) by auto.
  cbn [bind negb]. rewrite (ajustar_clave_Ret _ _ (clave_ok_normalizada _ Hk)).
  cbn [bind]. rewrite (foldM_append _ (fun ck => [dec ck])).
  - cbn [bind app]. rewrite join_singletons. fold (descifrado texto clave).
    rewrite existsb_all_AZ; [reflexivity | apply all_AZ_map_dec |].
    intros E. apply (f_equal (@List.length _)) in E. unfold descifrado in E.
    rewrite length_map, length_zip_expandida in E
      by exact (clave_ok_normalizada _ Hk).
    apply texto_ok_limpio in Ht. destruct (limpiar_texto texto); cbn in E; congruence.
  - intros acc [c k]. change (ord (lit "A")) with (Ret 65).
    cbn [ord bind]. rewrite chr_letter. reflexivity.
Qed.

End VigenereFacts.

(** ** The cipher on validated input *)

Import Py Vigenere Vocabulary PyFacts VigenereFacts.

Lemma valido_ok texto clave :
  valido texto clave <-> clave_ok clave = true /\ texto_ok texto = true.
Proof.
  unfold valido. split.
  - intros [m H]. apply validar_datos_true in H. tauto.
  - intros [Hk Ht]. exists []. apply validar_datos_true. auto.
Qed.

Lemma expandida_length_eq t t' clave :
  List.length t = List.length t' -> expandida t clave = expandida t' clave.
Proof. unfold expandida, len. now intros ->. Qed.

Lemma length_cifrado texto clave :
  clave_ok clave = true ->
  List.length (cifrado texto clave) = List.length (limpiar_texto texto).
Proof.
  intros Hk. unfold cifrado.
  now rewrite length_map, length_zip_expandida by exact (clave_ok_normalizada _ Hk).
Qed.

Lemma length_descifrado texto clave :
  clave_ok clave = true ->
  List.length (descifrado texto clave) = List.length (limpiar_texto texto).
Proof.
  intros Hk. unfold descifrado.
  now rewrite length_map, length_zip_expandida by exact (clave_ok_normalizada _ Hk).
Qed.

Lemma length_nonempty {A : Type} (a b : list A) :
  List.length a = List.length b -> b <> [] -> a <> [].
Proof. destruct a, b; cbn; congruence. Qed.

(** C1. For every text and key that pass validation, encrypting and then
    decrypting with the same key gives back the normalised text:
    [descifrar_vigenere (cifrar_vigenere t k) k] returns [limpiar_texto t]
    (and logs nothing). *)
Theorem descifrar_cifrar_roundtrip texto clave :
  valido texto clave ->
  exists c,
    cifrar_vigenere texto clave = Ret c /\
    descifrar_vigenere c clave = Ret (limpiar_texto texto, []).
Proof.
  intros Hv. apply valido_ok in Hv. destruct Hv as [Hk Ht].
  exists (cifrado texto clave). split; [now apply cifrar_vigenere_valid|].
  assert (Haz : all_AZ (cifrado texto clave) = true) by apply all_AZ_map_enc.
  assert (Hlen := length_cifrado texto clave Hk).
  assert (Hne : cifrado texto clave <> [])
    by (apply (length_nonempty _ _ Hlen); now apply texto_ok_limpio).
  rewrite descifrar_vigenere_valid by (auto using texto_ok_all_AZ).
  unfold descifrado. rewrite (limpiar_texto_fixed _ Haz).
  rewrite (expandida_length_eq _ _ clave Hlen).
  unfold cifrado. rewrite map_dec_enc; [reflexivity | apply limpiar_texto_all_AZ |].
  apply length_expandida. now apply clave_ok_normalizada.
Qed.

Lemma descifrar_cifrar_roundtrip_demo :
  exists c,
    cifrar_vigenere TEXTO_DEMO CLAVE_DEMO = Ret c /\
    descifrar_vigenere c CLAVE_DEMO = Ret (limpiar_texto TEXTO_DEMO, []).
Proof.
  apply (descifrar_cifrar_roundtrip TEXTO_DEMO CLAVE_DEMO).
  exists []. vm_compute. reflexivity.
Defined.

(** C2. For every text and key that pass validation, [cifrar_vigenere]
    returns a string of letters A-Z only, as long as the normalised text,
    and so does [descifrar_vigenere]. *)
Theorem salida_solo_letras texto clave :
  valido texto clave ->
  (exists c,
     cifrar_vigenere texto clave = Ret c /\
     all_AZ c = true /\
     List.length c = List.length (limpiar_texto texto)) /\
  (exists p avisos,
     descifrar_vigenere texto clave = Ret (p, avisos) /\
     all_AZ p = true /\
     List.length p = List.length (limpiar_texto texto)).
Proof.
  intros Hv. apply valido_ok in Hv. destruct Hv as [Hk Ht]. split.
  - exists (cifrado texto clave). split; [now apply cifrar_vigenere_valid|].
    split; [apply all_AZ_map_enc | now apply length_cifrado].
  - exists (descifrado texto clave), []. split; [now apply descifrar_vigenere_valid|].
    split; [apply all_AZ_map_dec | now apply length_descifrado].
Qed.

Lemma salida_solo_letras_demo :
  (exists c,
     cifrar_vigenere TEXTO_DEMO CLAVE_DEMO = Ret c /\
     all_AZ c = true /\
     List.length c = List.length (limpiar_texto TEXTO_DEMO)) /\
  (exists p avisos,
     descifrar_vigenere TEXTO_DEMO CLAVE_DEMO = Ret (p, avisos) /\
     all_AZ p = true /\
     List.length p = List.length (limpiar_texto TEXTO_DEMO)).
Proof.
  apply (salida_solo_letras TEXTO_DEMO CLAVE_DEMO).
  exists []. vm_compute. reflexivity.
Defined.

(** C10. For every cipher text and key that pass validation, the string
    [descifrar_vigenere] returns is not empty and holds letters A-Z only, so
    the test guarding the warning finds a letter and no warning is logged. *)
Theorem aviso_inalcanzable texto_cifrado clave :
  valido texto_cifrado clave ->
  exists p,
    descifrar_vigenere texto_cifrado clave = Ret (p, []) /\
    p <> [] /\
    all_AZ p = true /\
    existsb (contains ascii_uppercase) p = true.
Proof.
  intros Hv. apply valido_ok in Hv. destruct Hv as [Hk Ht].
  exists (descifrado texto_cifrado clave).
  assert (Hne : descifrado texto_cifrado clave <> []).
  { apply (length_nonempty _ _ (length_descifrado texto_cifrado clave Hk)).
    now apply texto_ok_limpio. }
  split; [now apply descifrar_vigenere_valid|].
  split; [assumption|]. split; [apply all_AZ_map_dec|].
  apply existsb_all_AZ; [apply all_AZ_map_dec | assumption].
Qed.

Lemma aviso_inalcanzable_demo :
  exists p,
    descifrar_vigenere (lit "CEALYGLLVQCYEXIT") CLAVE_DEMO = Ret (p, []) /\
    p <> [] /\
    all_AZ p = true /\
    existsb (contains ascii_uppercase) p = true.
Proof.
  apply (aviso_inalcanzable (lit "CEALYGLLVQCYEXIT") CLAVE_DEMO).
  exists []. vm_compute. reflexivity.
Defined.

(** ** The demonstration text *)

(** C5, as stated: the normalised demonstration text would have 17 letters.
    It has 16. *)
Lemma demo_no_tiene_17_letras :
  ~ (limpiar_texto (lit "ATAQUE AL AMANECER") = lit "ATAQUEALAMANECER" /\
     List.length (limpiar_texto (lit "ATAQUE AL AMANECER")) = 17%nat).
Proof. intros [_ H]. vm_compute in H. discriminate. Qed.

(** C5, amended. [limpiar_texto "ATAQUE AL AMANECER"] is ["ATAQUEALAMANECER"],
    of length 16; [cifrar_vigenere "ATAQUEALAMANECER" "CLAVE"] returns the
    string ["CEALYGLLVQCYEXIT"] of letters A-Z, and decrypting that with
    ["CLAVE"] returns ["ATAQUEALAMANECER"]. *)
Theorem demo_cifrado :
  limpiar_texto (lit "ATAQUE AL AMANECER") = lit "ATAQUEALAMANECER" /\
  List.length (limpiar_texto (lit "ATAQUE AL AMANECER")) = 16%nat /\
  cifrar_vigenere (lit "ATAQUEALAMANECER") (lit "CLAVE")
    = Ret (lit "CEALYGLLVQCYEXIT") /\
  all_AZ (lit "CEALYGLLVQCYEXIT") = true /\
  descifrar_vigenere (lit "CEALYGLLVQCYEXIT") (lit "CLAVE")
    = Ret (lit "ATAQUEALAMANECER", []).
Proof. split; [|split; [|split; [|split]]]; vm_compute; reflexivity. Qed.

(** ** Key expansion *)

(** C6. When the normalised key is not empty, [ajustar_clave texto clave]
    returns a string as long as [texto] whose character [i] is character
    [i mod len] of the normalised key, hence the empty string for an empty
    text; when the normalised key is empty it raises [ValueError].  On
    ["HOLA"], ["A"] it returns ["AAAA"] and on ["HOLAMUNDO"], ["AB"] it
    returns ["ABABABABA"]. *)
Theorem ajustar_clave_repite texto clave :
  (normalizar_clave clave <> [] ->
   exists e,
     ajustar_clave texto clave = Ret e /\
     List.length e = List.length texto /\
     (forall (i : nat) d, (i < List.length texto)%nat ->
        nth i e d =
        nth (i mod List.length (normalizar_clave clave)) (normalizar_clave clave) d) /\
     (texto = [] -> e = [])) /\
  (normalizar_clave clave = [] ->
   exists mensaje, ajustar_clave texto clave = Raise (ValueError mensaje)) /\
  ajustar_clave (lit "HOLA") (lit "A") = Ret (lit "AAAA") /\
  ajustar_clave (lit "HOLAMUNDO") (lit "AB") = Ret (lit "ABABABABA").
Proof.
  split; [|split; [|split; vm_compute; reflexivity]].
  - intros H. exists (expandida texto clave).
    split; [now apply ajustar_clave_Ret|].
    split; [now apply length_expandida|].
    split; [intros i d Hi; now apply nth_expandida|].
    intros ->. pose proof (length_expandida [] clave H) as E.
    destruct (expandida [] clave); [reflexivity | discriminate].
  - intros H. unfold ajustar_clave. rewrite H. cbn. eauto.
Qed.

Lemma ajustar_clave_repite_demo :
  exists e,
    ajustar_clave (lit "HOLAMUNDO") (lit "AB") = Ret e /\
    List.length e = List.length (lit "HOLAMUNDO") /\
    (forall (i : nat) d, (i < List.length (lit "HOLAMUNDO"))%nat ->
       nth i e d =
       nth (i mod List.length (normalizar_clave (lit "AB")))
           (normalizar_clave (lit "AB")) d) /\
    (lit "HOLAMUNDO" = [] -> e = []).
Proof.
  apply (proj1 (ajustar_clave_repite (lit "HOLAMUNDO") (lit "AB"))).
  vm_compute. discriminate.
Defined.

(** ** The per-position formulas *)

Lemma nth_map_zip (f : char * char -> char) (a b : str) (i : nat) :
  List.length b = List.length a -> (i < List.length a)%nat ->
  nth i (List.map f (zip a b)) 0 = f (nth i a 0, nth i b 0).
Proof.
  intros Hl Hi. unfold zip.
  rewrite (nth_indep _ 0 (f (0, 0)))
    by (rewrite length_map, length_combine; lia).
  rewrite map_nth. f_equal. now apply combine_nth.
Qed.

(** C7. For every text and key that pass validation, with [nt] the normalised
    text and [ek] the key expanded to it, the string [cifrar_vigenere] returns
    has at each position [i] the character
    [chr((ord(nt[i]) - ord('A') + ord(ek[i]) - ord('A')) mod 26 + ord('A'))],
    and the string [descifrar_vigenere] returns has the character
    [chr((ord(nt[i]) - ord('A') - (ord(ek[i]) - ord('A'))) mod 26 + ord('A'))],
    a letter A-Z; [ord('A')] is 65. *)
Theorem formula_por_posicion texto clave :
  valido texto clave ->
  ord (lit "A") = Ret 65 /\
  exists ek,
    ajustar_clave (limpiar_texto texto) clave = Ret ek /\
    (exists c,
       cifrar_vigenere texto clave = Ret c /\
       List.length c = List.length (limpiar_texto texto) /\
       forall i : nat, (i < List.length (limpiar_texto texto))%nat ->
         chr ((nth i (limpiar_texto texto) 0 - 65 + (nth i ek 0 - 65)) mod 26 + 65)
         = Ret (nth i c 0)) /\
    (exists p avisos,
       descifrar_vigenere texto clave = Ret (p, avisos) /\
       List.length p = List.length (limpiar_texto texto) /\
       forall i : nat, (i < List.length (limpiar_texto texto))%nat ->
         chr ((nth i (limpiar_texto texto) 0 - 65 - (nth i ek 0 - 65)) mod 26 + 65)
         = Ret (nth i p 0) /\
         65 <= nth i p 0 <= 90).
Proof.
  intros Hv. apply valido_ok in Hv. destruct Hv as [Hk Ht].
  pose proof (clave_ok_normalizada _ Hk) as Hn.
  split; [reflexivity|].
  exists (expandida (limpiar_texto texto) clave).
  split; [now apply ajustar_clave_Ret|]. split.
  - exists (cifrado texto clave). split; [now apply cifrar_vigenere_valid|].
    split; [now apply length_cifrado|].
    intros i Hi. unfold cifrado.
    rewrite nth_map_zip by (auto using length_expandida).
    rewrite chr_letter. reflexivity.
  - exists (descifrado texto clave), [].
    split; [now apply descifrar_vigenere_valid|].
    split; [now apply length_descifrado|].
    intros i Hi. unfold descifrado.
    rewrite nth_map_zip by (auto using length_expandida).
    rewrite chr_letter. split; [reflexivity | apply letter_range].
Qed.

Lemma formula_por_posicion_demo :
  ord (lit "A") = Ret 65 /\
  exists ek,
    ajustar_clave (limpiar_texto TEXTO_DEMO) CLAVE_DEMO = Ret ek /\
    (exists c,
       cifrar_vigenere TEXTO_DEMO CLAVE_DEMO = Ret c /\
       List.length c = List.length (limpiar_texto TEXTO_DEMO) /\
       forall i : nat, (i < List.length (limpiar_texto TEXTO_DEMO))%nat ->
         chr ((nth i (limpiar_texto TEXTO_DEMO) 0 - 65 + (nth i ek 0 - 65)) mod 26 + 65)
         = Ret (nth i c 0)) /\
    (exists p avisos,
       descifrar_vigenere TEXTO_DEMO CLAVE_DEMO = Ret (p, avisos) /\
       List.length p = List.length (limpiar_texto TEXTO_DEMO) /\
       forall i : nat, (i < List.length (limpiar_texto TEXTO_DEMO))%nat ->
         chr ((nth i (limpiar_texto TEXTO_DEMO) 0 - 65 - (nth i ek 0 - 65)) mod 26 + 65)
         = Ret (nth i p 0) /\
         65 <= nth i p 0 <= 90).
Proof.
  apply (formula_por_posicion TEXTO_DEMO CLAVE_DEMO).
  exists []. vm_compute. reflexivity.
Defined.

(** ** Errors *)

(** [cifrar_vigenere] raises [ValueError] with a message exactly when
    [validar_datos] returns [False] with that message, and so does
    [descifrar_vigenere]; when validation succeeds both return a string. *)
Lemma errores_de_validacion texto clave :
  (forall mensaje,
     cifrar_vigenere texto clave = Raise (ValueError mensaje) <->
     validar_datos texto clave = Ret (false, mensaje)) /\
  (forall mensaje,
     descifrar_vigenere texto clave = Raise (ValueError mensaje) <->
     validar_datos texto clave = Ret (false, mensaje)) /\
  (valido texto clave ->
   (exists c, cifrar_vigenere texto clave = Ret c) /\
   (exists p avisos, descifrar_vigenere texto clave = Ret (p, avisos))).
Proof.
  destruct (validar_datos texto clave) as [[[|] m]|e] eqn:E.
  - assert (Hv : valido texto clave) by (now exists m).
    apply valido_ok in Hv. destruct Hv as [Hk Ht].
    rewrite (cifrar_vigenere_valid _ _ Hk Ht), (descifrar_vigenere_valid _ _ Hk Ht).
    split; [|split].
    + intros mensaje. split; discriminate.
    + intros mensaje. split; discriminate.
    + intros _. eauto.
  - unfold cifrar_vigenere, descifrar_vigenere, valido. rewrite E. cbn [bind negb].
    split; [|split].
    + intros mensaje. split; intros [= ->]; reflexivity.
    + intros mensaje. split; intros [= ->]; reflexivity.
    + intros [m' H]. discriminate.
  - unfold cifrar_vigenere, descifrar_vigenere, valido. rewrite E. cbn [bind].
    apply validar_datos_raise in E. destruct E as [-> _].
    split; [|split].
    + intros mensaje. split; discriminate.
    + intros mensaje. split; discriminate.
    + intros [m' H]. discriminate.
Qed.

(** C9, on the code.  When [validar_datos] returns [False] with a message,
    [cifrar_vigenere] and [descifrar_vigenere] raise [ValueError] with that
    message, and only then; when it returns [True] both return a string.
    But on the text ["ATAQUE AL AMANECER"] and the key
    ["CLA" + U+200B + "VE"] validation does not succeed and what the two
    functions raise is [TypeError]: no [ValueError] and no message. *)
Theorem validacion_fallida_TypeError :
  (forall texto clave mensaje,
     cifrar_vigenere texto clave = Raise (ValueError mensaje) <->
     validar_datos texto clave = Ret (false, mensaje)) /\
  (forall texto clave mensaje,
     descifrar_vigenere texto clave = Raise (ValueError mensaje) <->
     validar_datos texto clave = Ret (false, mensaje)) /\
  (forall texto clave,
     valido texto clave ->
     (exists c, cifrar_vigenere texto clave = Ret c) /\
     (exists p avisos, descifrar_vigenere texto clave = Ret (p, avisos))) /\
  ~ valido TEXTO_DEMO (lit "CLA" ++ [0x200B] ++ lit "VE") /\
  cifrar_vigenere TEXTO_DEMO (lit "CLA" ++ [0x200B] ++ lit "VE")
    = Raise TypeError /\
  descifrar_vigenere TEXTO_DEMO (lit "CLA" ++ [0x200B] ++ lit "VE")
    = Raise TypeError /\
  (forall mensaje,
     cifrar_vigenere TEXTO_DEMO (lit "CLA" ++ [0x200B] ++ lit "VE")
       <> Raise (ValueError mensaje)) /\
  (forall mensaje,
     descifrar_vigenere TEXTO_DEMO (lit "CLA" ++ [0x200B] ++ lit "VE")
       <> Raise (ValueError mensaje)).
Proof.
  split; [intros texto clave; apply (errores_de_validacion texto clave)|].
  split; [intros texto clave; apply (errores_de_validacion texto clave)|].
  split; [intros texto clave; apply (errores_de_validacion texto clave)|].
  assert (Hc : cifrar_vigenere TEXTO_DEMO (lit "CLA" ++ [0x200B] ++ lit "VE")
               = Raise TypeError) by (vm_compute; reflexivity).
  assert (Hd : descifrar_vigenere TEXTO_DEMO (lit "CLA" ++ [0x200B] ++ lit "VE")
               = Raise TypeError) by (vm_compute; reflexivity).
  split; [intros [m H]; vm_compute in H; discriminate|].
  split; [exact Hc|]. split; [exact Hd|].
  split; intros mensaje; [rewrite Hc | rewrite Hd]; discriminate.
Qed.

(** ** The order of the checks *)

Lemma str_eqb_nil s : str_eqb s [] = negb (truthy s).
Proof. now destruct s. Qed.

Lemma invisible_In clave :
  existsb invisible clave = true <->
  exists c, In c clave /\ In c CARACTERES_INVISIBLES.
Proof.
  rewrite existsb_exists. unfold invisible, contains.
  split; intros [c [H1 H2]]; exists c; split; try assumption;
    now apply existsb_eqb_In.
Qed.

Ltac paso := cbn [List.find snd option_map fst mensaje_de].

(** C3, on the code.  [validar_datos] runs the seven checks in the stated
    order and stops at the first that fails: it returns [True] when none
    does and [False] with the reason's message otherwise, except at check 2,
    where it raises [TypeError] instead of returning the message.  The key
    ["AB"] fails at check 4 and ["AB12CD"] at check 5; the key
    ["CLA" + U+200B + "VE"] fails at check 2, with [TypeError]. *)
Theorem validar_datos_orden :
  (forall texto clave,
     validar_datos texto clave =
     match first_failure texto clave with
     | None => Ret (true, [])
     | Some InvisibleCharacters => Raise TypeError
     | Some r => Ret (false, mensaje_de r clave)
     end) /\
  validar_datos TEXTO_DEMO (lit "AB")
    = Ret (false, mensaje_de KeyTooShort (lit "AB")) /\
  validar_datos TEXTO_DEMO (lit "AB12CD")
    = Ret (false, mensaje_de KeyInvalidCharacters (lit "AB12CD")) /\
  first_failure TEXTO_DEMO (lit "CLA" ++ [0x200B] ++ lit "VE")
    = Some InvisibleCharacters /\
  validar_datos TEXTO_DEMO (lit "CLA" ++ [0x200B] ++ lit "VE") = Raise TypeError.
Proof.
  split; [|split; [|split; [|split]]; vm_compute; reflexivity].
  intros texto clave. unfold validar_datos, first_failure, checks.
  rewrite !blank_test, truthy_detectar_invisibles, !str_eqb_nil.
  destruct (blank clave); paso; [reflexivity|].
  destruct (existsb invisible clave) eqn:Einv; paso.
  { rewrite codigos_raise by now rewrite truthy_detectar_invisibles.
    reflexivity. }
  destruct (negb (truthy (normalizar_clave clave))); paso; [reflexivity|].
  destruct (len (normalizar_clave clave) <? MINIMO_CLAVE); paso;
    [do 2 f_equal; vm_compute; reflexivity|].
  destruct (negb (str_eqb (normalizar_clave clave) (upper clave))); paso;
    [reflexivity|].
  destruct (blank texto); paso; [reflexivity|].
  destruct (negb (truthy (limpiar_texto texto))); paso; reflexivity.
Qed.

(** C4, on the code.  For every key that is not blank and holds a character
    of [CARACTERES_INVISIBLES], [validar_datos] raises [TypeError]: it
    returns no result and no message. *)
Theorem clave_invisible_TypeError texto clave :
  blank clave = false ->
  (exists c, In c clave /\ In c CARACTERES_INVISIBLES) ->
  validar_datos texto clave = Raise TypeError.
Proof.
  intros Hb Hi. apply validar_datos_raise.
  split; [reflexivity|]. split; [assumption|]. now apply invisible_In.
Qed.

Lemma clave_invisible_TypeError_demo :
  validar_datos (lit "HOLA") (lit "CLA" ++ [0x200B] ++ lit "VE") = Raise TypeError.
Proof.
  apply (clave_invisible_TypeError (lit "HOLA") (lit "CLA" ++ [0x200B] ++ lit "VE")).
  - vm_compute. reflexivity.
  - exists 0x200B. split; vm_compute; tauto.
Defined.

(** ** Normalisation *)

Lemma filter_flat_map {A B : Type} (p : B -> bool) (g : A -> list B) l :
  List.filter p (List.flat_map g l)
  = List.flat_map (fun a => List.filter p (g a)) l.
Proof.
  induction l as [|a l IH]; [reflexivity|].
  cbn [List.flat_map]. now rewrite filter_app, IH.
Qed.

Lemma filter_none {A : Type} (p : A -> bool) l :
  (forall x, In x l -> p x = false) -> List.filter p l = [].
Proof.
  induction l as [|a l IH]; intros H; [reflexivity|].
  cbn [List.filter]. rewrite (H a) by now left.
  apply IH. intros x Hx. apply H. now right.
Qed.

(** What is left of one character that is not exceptional: its upper-case
    letter when it is an ASCII letter, nothing otherwise. *)
Lemma letters_of_upper_char c :
  ~ In c exceptional ->
  List.filter (contains ascii_uppercase) (upper_char c)
  = if is_ascii_letter c then [ascii_upper c] else [].
Proof.
  intros Hex. unfold is_ascii_letter, ascii_upper.
  destruct (isAZ c) eqn:Eaz.
  - rewrite (upper_char_AZ c Eaz). cbn [List.filter orb].
    rewrite contains_ascii_uppercase, Eaz.
    apply isAZ_spec in Eaz.
    destruct (Z.leb_spec 97 c); [lia | reflexivity].
  - cbn [orb]. destruct ((97 <=? c) && (c <=? 122)) eqn:Elow.
    + apply andb_true_iff in Elow. rewrite !Z.leb_le in Elow.
      rewrite (upper_char_az c Elow). cbn [List.filter].
      rewrite contains_ascii_uppercase.
      replace (isAZ (c - 32)) with true; [reflexivity|].
      symmetry. apply isAZ_spec. lia.
    + apply filter_none. intros x Hx.
      rewrite contains_ascii_uppercase.
      destruct (isAZ x) eqn:Ex; [|reflexivity].
      destruct (upper_char_letter c x Hx Ex) as [H|H]; [|contradiction].
      unfold is_ascii_letter in H. rewrite Eaz, Elow in H. discriminate.
Qed.

Lemma limpiar_texto_ascii t :
  (forall c, In c t -> ~ In c exceptional) ->
  limpiar_texto t = List.map ascii_upper (List.filter is_ascii_letter t).
Proof.
  intros H. unfold limpiar_texto, upper. rewrite filter_flat_map.
  induction t as [|c t IH]; [reflexivity|].
  cbn [List.flat_map List.filter].
  rewrite letters_of_upper_char by (apply H; now left).
  rewrite IH by (intros x Hx; apply H; now right).
  destruct (is_ascii_letter c); reflexivity.
Qed.

(** C8, as stated: every character of the text that is not an ASCII letter
    would be discarded, accented letters included.  The letter j with caron
    (U+01F0) upper-cases to J followed by a combining caron, and the J
    stays. *)
Lemma letra_acentuada_no_descartada :
  is_ascii_letter 0x1F0 = false /\
  limpiar_texto [0x1F0] = lit "J" /\
  ~ (forall t,
       limpiar_texto t = List.map ascii_upper (List.filter is_ascii_letter t)).
Proof.
  split; [reflexivity|]. split; [vm_compute; reflexivity|].
  intros H. specialize (H [0x1F0]). vm_compute in H. discriminate.
Qed.

(** C8, amended.  [limpiar_texto] is idempotent and its result holds letters
    A-Z only: the letters A-Z of the upper-cased text.  On a text without
    the seventeen exceptional code points (whose upper-case forms hold ASCII
    letters) it is the ASCII letters of the text, upper-cased, every other
    character being discarded; such a text without ASCII letters gives the
    empty string.  It is a total function. *)
Theorem limpiar_texto_normaliza t :
  limpiar_texto (limpiar_texto t) = limpiar_texto t /\
  all_AZ (limpiar_texto t) = true /\
  limpiar_texto t = List.filter isAZ (upper t) /\
  ((forall c, In c t -> ~ In c exceptional) ->
   limpiar_texto t = List.map ascii_upper (List.filter is_ascii_letter t)) /\
  ((forall c, In c t -> ~ In c exceptional /\ is_ascii_letter c = false) ->
   limpiar_texto t = []).
Proof.
  split; [apply limpiar_texto_fixed, limpiar_texto_all_AZ|].
  split; [apply limpiar_texto_all_AZ|].
  split; [unfold limpiar_texto; apply filter_ext, contains_ascii_uppercase|].
  split; [apply limpiar_texto_ascii|].
  intros H. rewrite limpiar_texto_ascii by (intros c Hc; now apply H).
  rewrite filter_none; [reflexivity|]. intros c Hc. now apply H.
Qed.

Lemma limpiar_texto_normaliza_demo :
  limpiar_texto (lit "Ataque al amanecer, 1815!")
  = List.map ascii_upper (List.filter is_ascii_letter (lit "Ataque al amanecer, 1815!")).
Proof.
  apply (proj1 (proj2 (proj2 (proj2
           (limpiar_texto_normaliza (lit "Ataque al amanecer, 1815!")))))).
  intros c Hc Hex. vm_compute in Hc, Hex.
  repeat (destruct Hc as [<-|Hc]; [repeat (destruct Hex as [Hex|Hex]; [discriminate|]); exact Hex|]).
  exact Hc.
Defined.

(** * Further properties of the cipher core *)

(** ** Which inputs are accepted *)

Lemma filter_fixed_iff {A : Type} (p : A -> bool) l :
  List.filter p l = l <-> forallb p l = true.
Proof.
  induction l as [|a l IH]; cbn [List.filter forallb]; [tauto|].
  destruct (p a) eqn:E; cbn [andb].
  - rewrite <- IH. split; [intros [= H]; exact H | intros ->; reflexivity].
  - split; [|discriminate]. intros H.
    assert (Hin : In a (List.filter p l)) by (rewrite H; now left).
    apply filter_In in Hin. destruct Hin as [_ Hpa]. congruence.
Qed.

Lemma special_casing_nonempty :
  forallb (fun e : char * str => truthy (snd e)) special_casing = true.
Proof. vm_compute. reflexivity. Qed.

Lemma upper_char_nonempty c : upper_char c <> [].
Proof.
  unfold upper_char.
  destruct (lookup_special c special_casing) as [u|] eqn:Es.
  - apply lookup_special_In in Es.
    pose proof special_casing_nonempty as H. rewrite forallb_forall in H.
    specialize (H _ Es). cbn [snd] in H. now apply truthy_true.
  - destruct (lookup_simple c simple_upper); discriminate.
Qed.

(** The upper-case form of a character that is not exceptional is made of
    letters A-Z exactly when the character is an ASCII letter. *)
Lemma all_AZ_upper_char c :
  ~ In c exceptional -> all_AZ (upper_char c) = is_ascii_letter c.
Proof.
  intros Hex. pose proof (letters_of_upper_char c Hex) as H.
  rewrite (filter_ext _ _ contains_ascii_uppercase) in H.
  destruct (is_ascii_letter c) eqn:E.
  - unfold is_ascii_letter in E. apply orb_true_iff in E. destruct E as [E|E].
    + rewrite (upper_char_AZ c E). unfold all_AZ. cbn. now rewrite E.
    + apply andb_true_iff in E. rewrite !Z.leb_le in E.
      rewrite (upper_char_az c E). unfold all_AZ. cbn.
      rewrite andb_true_r. apply isAZ_spec. lia.
  - destruct (all_AZ (upper_char c)) eqn:Ea; [|reflexivity].
    apply filter_fixed_iff in Ea. rewrite Ea in H.
    now apply upper_char_nonempty in H.
Qed.

Lemma all_AZ_app a b : all_AZ (a ++ b) = all_AZ a && all_AZ b.
Proof. apply forallb_app. Qed.

Lemma all_AZ_upper s :
  (forall c, In c s -> ~ In c exceptional) ->
  all_AZ (upper s) = forallb is_ascii_letter s.
Proof.
  unfold upper. induction s as [|c s IH]; intros H; [reflexivity|].
  cbn [List.flat_map forallb]. rewrite all_AZ_app.
  rewrite all_AZ_upper_char by (apply H; now left).
  rewrite IH by (intros x Hx; apply H; now right). reflexivity.
Qed.

Lemma letter_plain c :
  is_ascii_letter c = true ->
  ~ In c exceptional /\ isspace c = false /\ invisible c = false.
Proof.
  intros H. unfold is_ascii_letter, isAZ in H.
  rewrite orb_true_iff, !andb_true_iff, !Z.leb_le in H.
  split; [cbn; lia|]. split.
  - destruct (isspace c) eqn:E; [|reflexivity].
    unfold isspace in E. apply existsb_eqb_In in E. cbn in E. lia.
  - destruct (invisible c) eqn:E; [|reflexivity].
    unfold invisible, contains in E. apply existsb_eqb_In in E. cbn in E. lia.
Qed.

Lemma filter_all {A : Type} (p : A -> bool) l :
  forallb p l = true -> List.filter p l = l.
Proof. apply filter_fixed_iff. Qed.

(** A key without exceptional code points passes the five key checks
    exactly when it has at least three characters, all ASCII letters. *)
Lemma clave_ok_plain clave :
  (forall c, In c clave -> ~ In c exceptional) ->
  clave_ok clave = true <->
  forallb is_ascii_letter clave = true /\ (3 <= List.length clave)%nat.
Proof.
  intros Hex. unfold clave_ok.
  change (normalizar_clave clave) with (limpiar_texto clave).
  rewrite (limpiar_texto_ascii clave Hex).
  rewrite !andb_true_iff, !negb_true_iff, str_eqb_eq, Z.ltb_ge. unfold len, MINIMO_CLAVE.
  split.
  - intros [[[[_ _] _] Hlen] Heq].
    assert (Hall : forallb is_ascii_letter clave = true).
    { rewrite <- (all_AZ_upper clave Hex), <- Heq.
      change (List.map ascii_upper (List.filter is_ascii_letter clave))
        with (List.map ascii_upper (List.filter is_ascii_letter clave)).
      rewrite <- (limpiar_texto_ascii clave Hex). apply limpiar_texto_all_AZ. }
    split; [assumption|].
    rewrite (filter_all _ _ Hall), length_map in Hlen. lia.
  - intros [Hall Hlen]. rewrite (filter_all _ _ Hall), length_map.
    assert (Hup : upper clave = List.map ascii_upper clave).
    { rewrite <- (filter_all is_ascii_letter clave Hall) at 2.
      rewrite <- (limpiar_texto_ascii clave Hex). unfold limpiar_texto.
      symmetry. rewrite (filter_ext _ _ contains_ascii_uppercase).
      apply filter_all. fold (all_AZ (upper clave)).
      now rewrite (all_AZ_upper clave Hex). }
    rewrite forallb_forall in Hall.
    destruct clave as [|k0 clave']; [cbn in Hlen; lia|].
    assert (H0 : is_ascii_letter k0 = true) by (apply Hall; now left).
    split; [split; [split; [split|]|]|].
    + unfold blank. cbn [forallb].
      now rewrite (proj1 (proj2 (letter_plain k0 H0))).
    + destruct (existsb invisible (k0 :: clave')) eqn:E; [|reflexivity].
      apply existsb_exists in E. destruct E as [x [Hx Hix]].
      rewrite (proj2 (proj2 (letter_plain x (Hall x Hx)))) in Hix. discriminate.
    + reflexivity.
    + lia.
    + now rewrite Hup.
Qed.

Lemma whitespace_plain :
  forallb (fun c => negb (is_ascii_letter c) && negb (existsb (Z.eqb c) exceptional))
          whitespace = true.
Proof. vm_compute. reflexivity. Qed.

(** Check 6 never decides: a blank text has no letter left either. *)
Lemma blank_limpiar_texto texto : blank texto = true -> limpiar_texto texto = [].
Proof.
  intros Hb. unfold blank in Hb. rewrite forallb_forall in Hb.
  assert (Hc : forall c, In c texto ->
                 is_ascii_letter c = false /\ ~ In c exceptional).
  { intros c Hc. specialize (Hb c Hc). unfold isspace in Hb.
    apply existsb_eqb_In in Hb.
    pose proof whitespace_plain as W. rewrite forallb_forall in W.
    specialize (W c Hb). apply andb_true_iff in W. destruct W as [W1 W2].
    apply negb_true_iff in W1, W2. split; [assumption|].
    intros Hin. apply existsb_eqb_In in Hin. congruence. }
  rewrite limpiar_texto_ascii by (intros c H; now apply Hc).
  rewrite filter_none; [reflexivity|]. intros c H. now apply Hc.
Qed.

Lemma texto_ok_iff texto : texto_ok texto = true <-> limpiar_texto texto <> [].
Proof.
  unfold texto_ok. rewrite andb_true_iff, negb_true_iff, truthy_true. split.
  - tauto.
  - intros H. split; [|assumption].
    destruct (blank texto) eqn:E; [|reflexivity].
    now apply blank_limpiar_texto in E.
Qed.

(** X1. A text and a key without any of the seventeen exceptional code
    points pass validation exactly when the key has at least three
    characters, all of them ASCII letters, and normalising the text leaves
    at least one letter. *)
Theorem validacion_de_clave_simple texto clave :
  (forall c, In c clave -> ~ In c exceptional) ->
  valido texto clave <->
  forallb is_ascii_letter clave = true /\
  (3 <= List.length clave)%nat /\
  limpiar_texto texto <> [].
Proof.
  intros Hex. rewrite valido_ok, (clave_ok_plain clave Hex), texto_ok_iff. tauto.
Qed.

Lemma validacion_de_clave_simple_demo :
  valido TEXTO_DEMO (lit "clave") <->
  forallb is_ascii_letter (lit "clave") = true /\
  (3 <= List.length (lit "clave"))%nat /\
  limpiar_texto TEXTO_DEMO <> [].
Proof.
  apply (validacion_de_clave_simple TEXTO_DEMO (lit "clave")).
  intros c Hc Hex. vm_compute in Hc, Hex.
  repeat (destruct Hc as [<-|Hc];
          [repeat (destruct Hex as [Hex|Hex]; [discriminate|]); exact Hex|]).
  exact Hc.
Defined.

(** ** The cipher sees the normalised text and key only *)

Lemma clave_ok_normalizar_clave clave :
  clave_ok clave = true -> clave_ok (normalizar_clave clave) = true.
Proof.
  intros Hk.
  assert (Haz := normalizar_clave_all_AZ clave).
  assert (Hall : forallb is_ascii_letter (normalizar_clave clave) = true).
  { unfold all_AZ in Haz. rewrite forallb_forall in Haz.
    apply forallb_forall. intros c Hc. unfold is_ascii_letter.
    now rewrite (Haz c Hc). }
  apply clave_ok_plain.
  - intros c Hc. rewrite forallb_forall in Hall.
    exact (proj1 (letter_plain c (Hall c Hc))).
  - split; [assumption|]. unfold clave_ok in Hk.
    rewrite !andb_true_iff, !negb_true_iff, Z.ltb_ge in Hk.
    destruct Hk as [[[_ Hn] Hlen] _]. apply truthy_true in Hn.
    unfold len, MINIMO_CLAVE in Hlen. lia.
Qed.

Lemma normalizar_clave_fixed clave :
  normalizar_clave (normalizar_clave clave) = normalizar_clave clave.
Proof. apply (limpiar_texto_fixed _ (normalizar_clave_all_AZ clave)). Qed.

Lemma expandida_normalizar_clave texto clave :
  expandida texto (normalizar_clave clave) = expandida texto clave.
Proof. unfold expandida. now rewrite normalizar_clave_fixed. Qed.

Lemma texto_ok_limpiar_texto texto :
  texto_ok texto = true -> texto_ok (limpiar_texto texto) = true.
Proof.
  intros Ht. apply texto_ok_all_AZ; [apply limpiar_texto_all_AZ|].
  now apply texto_ok_limpio.
Qed.

(** X2. On validated input both cipher functions give the same result for
    the text as for its normalised form, and for the key as for its
    normalised form: letter case and the characters dropped by the
    normalisation have no influence. *)
Theorem cifrado_de_normalizados texto clave :
  valido texto clave ->
  cifrar_vigenere (limpiar_texto texto) clave = cifrar_vigenere texto clave /\
  cifrar_vigenere texto (normalizar_clave clave) = cifrar_vigenere texto clave /\
  descifrar_vigenere (limpiar_texto texto) clave = descifrar_vigenere texto clave /\
  descifrar_vigenere texto (normalizar_clave clave) = descifrar_vigenere texto clave.
Proof.
  intros Hv. apply valido_ok in Hv. destruct Hv as [Hk Ht].
  pose proof (clave_ok_normalizar_clave clave Hk) as Hk'.
  pose proof (texto_ok_limpiar_texto texto Ht) as Ht'.
  pose proof (limpiar_texto_fixed _ (limpiar_texto_all_AZ texto)) as Hfix.
  rewrite !(cifrar_vigenere_valid _ _ Hk Ht), !(descifrar_vigenere_valid _ _ Hk Ht).
  rewrite (cifrar_vigenere_valid _ _ Hk Ht'), (cifrar_vigenere_valid _ _ Hk' Ht).
  rewrite (descifrar_vigenere_valid _ _ Hk Ht'), (descifrar_vigenere_valid _ _ Hk' Ht).
  unfold cifrado, descifrado.
  rewrite Hfix, !expandida_normalizar_clave. auto.
Qed.

Lemma cifrado_de_normalizados_demo :
  cifrar_vigenere (limpiar_texto TEXTO_DEMO) (lit "Clave")
    = cifrar_vigenere TEXTO_DEMO (lit "Clave") /\
  cifrar_vigenere TEXTO_DEMO (normalizar_clave (lit "Clave"))
    = cifrar_vigenere TEXTO_DEMO (lit "Clave") /\
  descifrar_vigenere (limpiar_texto TEXTO_DEMO) (lit "Clave")
    = descifrar_vigenere TEXTO_DEMO (lit "Clave") /\
  descifrar_vigenere TEXTO_DEMO (normalizar_clave (lit "Clave"))
    = descifrar_vigenere TEXTO_DEMO (lit "Clave").
Proof.
  apply (cifrado_de_normalizados TEXTO_DEMO (lit "Clave")).
  exists []. vm_compute. reflexivity.
Defined.

(** ** Encrypting what was decrypted *)

Lemma enc_dec c k : isAZ c = true -> enc (dec (c, k), k) = c.
Proof.
  intros H. apply isAZ_spec in H. unfold dec, enc. cbn [fst snd].
  replace ((c - 65 - (k - 65)) mod 26 + 65 - 65 + (k - 65))
    with ((c - 65 - (k - 65)) mod 26 + (k - 65)) by lia.
  rewrite Zplus_mod_idemp_l.
  replace (c - 65 - (k - 65) + (k - 65)) with (c - 65) by lia.
  rewrite Z.mod_small; lia.
Qed.

Lemma map_enc_dec c k :
  all_AZ c = true -> List.length k = List.length c ->
  List.map enc (zip (List.map dec (zip c k)) k) = c.
Proof.
  unfold zip, all_AZ. revert k.
  induction c as [|a c IH]; intros [|b k]; cbn [List.length]; try discriminate;
    [reflexivity|].
  cbn [forallb combine List.map]. rewrite andb_true_iff.
  intros [Ha Hc] Hl. rewrite (enc_dec a b Ha). f_equal. apply IH; [assumption | lia].
Qed.

(** X3. The round trip in the other direction: for every cipher text and
    key that pass validation, [descifrar_vigenere] returns a string whose
    encryption with the same key is the normalised cipher text. *)
Theorem cifrar_descifrar_roundtrip texto_cifrado clave :
  valido texto_cifrado clave ->
  exists p,
    descifrar_vigenere texto_cifrado clave = Ret (p, []) /\
    cifrar_vigenere p clave = Ret (limpiar_texto texto_cifrado).
Proof.
  intros Hv. apply valido_ok in Hv. destruct Hv as [Hk Ht].
  exists (descifrado texto_cifrado clave).
  split; [now apply descifrar_vigenere_valid|].
  assert (Haz : all_AZ (descifrado texto_cifrado clave) = true)
    by apply all_AZ_map_dec.
  assert (Hlen := length_descifrado texto_cifrado clave Hk).
  assert (Hne : descifrado texto_cifrado clave <> [])
    by (apply (length_nonempty _ _ Hlen); now apply texto_ok_limpio).
  rewrite cifrar_vigenere_valid by (auto using texto_ok_all_AZ).
  unfold cifrado. rewrite (limpiar_texto_fixed _ Haz).
  rewrite (expandida_length_eq _ _ clave Hlen).
  unfold descifrado. rewrite map_enc_dec; [reflexivity | apply limpiar_texto_all_AZ |].
  apply length_expandida. now apply clave_ok_normalizada.
Qed.

Lemma cifrar_descifrar_roundtrip_demo :
  exists p,
    descifrar_vigenere TEXTO_DEMO CLAVE_DEMO = Ret (p, []) /\
    cifrar_vigenere p CLAVE_DEMO = Ret (limpiar_texto TEXTO_DEMO).
Proof.
  apply (cifrar_descifrar_roundtrip TEXTO_DEMO CLAVE_DEMO).
  exists []. vm_compute. reflexivity.
Defined.

(** ** No two texts share a cipher text *)

Lemma cifrado_injective t1 t2 clave :
  clave_ok clave = true ->
  cifrado t1 clave = cifrado t2 clave -> limpiar_texto t1 = limpiar_texto t2.
Proof.
  intros Hk E. pose proof (clave_ok_normalizada _ Hk) as Hn.
  assert (Hlen : List.length (limpiar_texto t1) = List.length (limpiar_texto t2)).
  { rewrite <- (length_cifrado t1 clave Hk), <- (length_cifrado t2 clave Hk).
    now rewrite E. }
  unfold cifrado in E. rewrite (expandida_length_eq _ _ clave Hlen) in E.
  rewrite <- (map_dec_enc (limpiar_texto t1) (expandida (limpiar_texto t2) clave)).
  - rewrite E. apply map_dec_enc; [apply limpiar_texto_all_AZ|].
    now apply length_expandida.
  - apply limpiar_texto_all_AZ.
  - rewrite length_expandida by assumption. now symmetry.
Qed.

(** X4. With one key, two validated texts get the same cipher text only
    when their normalised forms are equal; likewise two validated cipher
    texts decrypt to the same string only when their normalised forms are
    equal. *)
Theorem cifrado_inyectivo t1 t2 clave :
  valido t1 clave -> valido t2 clave ->
  (cifrar_vigenere t1 clave = cifrar_vigenere t2 clave ->
   limpiar_texto t1 = limpiar_texto t2) /\
  (descifrar_vigenere t1 clave = descifrar_vigenere t2 clave ->
   limpiar_texto t1 = limpiar_texto t2).
Proof.
  intros H1 H2. apply valido_ok in H1, H2.
  destruct H1 as [Hk Ht1]. destruct H2 as [_ Ht2].
  pose proof (clave_ok_normalizada _ Hk) as Hn.
  rewrite !(cifrar_vigenere_valid _ _ Hk Ht1), !(cifrar_vigenere_valid _ _ Hk Ht2).
  rewrite !(descifrar_vigenere_valid _ _ Hk Ht1), !(descifrar_vigenere_valid _ _ Hk Ht2).
  split.
  - intros [= E]. exact (cifrado_injective t1 t2 clave Hk E).
  - intros [= E].
    assert (Hlen : List.length (limpiar_texto t1) = List.length (limpiar_texto t2)).
    { rewrite <- (length_descifrado t1 clave Hk), <- (length_descifrado t2 clave Hk).
      now rewrite E. }
    unfold descifrado in E. rewrite (expandida_length_eq _ _ clave Hlen) in E.
    rewrite <- (map_enc_dec (limpiar_texto t1) (expandida (limpiar_texto t2) clave)).
    + rewrite E. apply map_enc_dec; [apply limpiar_texto_all_AZ|].
      now apply length_expandida.
    + apply limpiar_texto_all_AZ.
    + rewrite length_expandida by assumption. now symmetry.
Qed.

Lemma cifrado_inyectivo_demo :
  (cifrar_vigenere TEXTO_DEMO CLAVE_DEMO
   = cifrar_vigenere (lit "ataque al amanecer") CLAVE_DEMO ->
   limpiar_texto TEXTO_DEMO = limpiar_texto (lit "ataque al amanecer")) /\
  (descifrar_vigenere TEXTO_DEMO CLAVE_DEMO
   = descifrar_vigenere (lit "ataque al amanecer") CLAVE_DEMO ->
   limpiar_texto TEXTO_DEMO = limpiar_texto (lit "ataque al amanecer")).
Proof.
  apply (cifrado_inyectivo TEXTO_DEMO (lit "ataque al amanecer") CLAVE_DEMO).
  - exists []. vm_compute. reflexivity.
  - exists []. vm_compute. reflexivity.
Defined.

(** ** The key of A's *)

Lemma In_firstn {A : Type} (n : nat) (l : list A) x :
  In x (firstn n l) -> In x l.
Proof.
  intros H. rewrite <- (firstn_skipn n l). apply in_or_app. now left.
Qed.

Lemma In_expandida x texto clave :
  In x (expandida texto clave) -> In x (normalizar_clave clave).
Proof.
  rewrite expandida_nat. intros H. apply In_firstn in H.
  apply in_concat in H. destruct H as [l [Hl Hx]].
  apply repeat_spec in Hl. now subst.
Qed.

Lemma enc_A t : isAZ t = true -> enc (t, 65) = t.
Proof.
  intros H. apply isAZ_spec in H. unfold enc. cbn [fst snd].
  replace (t - 65 + (65 - 65)) with (t - 65) by lia.
  rewrite Z.mod_small; lia.
Qed.

Lemma dec_A t : isAZ t = true -> dec (t, 65) = t.
Proof.
  intros H. apply isAZ_spec in H. unfold dec. cbn [fst snd].
  replace (t - 65 - (65 - 65)) with (t - 65) by lia.
  rewrite Z.mod_small; lia.
Qed.

Lemma map_zip_A (f : char * char -> char) t k :
  (forall x, isAZ x = true -> f (x, 65) = x) ->
  all_AZ t = true -> List.length k = List.length t ->
  (forall x, In x k -> x = 65) ->
  List.map f (zip t k) = t.
Proof.
  intros Hf. unfold zip, all_AZ. revert k.
  induction t as [|a t IH]; intros [|b k]; cbn [List.length]; try discriminate;
    [reflexivity|].
  cbn [forallb combine List.map]. rewrite andb_true_iff.
  intros [Ha Ht] Hl Hk.
  assert (Hb : b = 65) by (apply Hk; now left). subst b.
  f_equal; [exact (Hf a Ha)|].
  apply IH; [assumption | lia | intros x Hx; apply Hk; now right].
Qed.

(** X5. A validated key whose normalised form holds the letter A only is
    the identity: both cipher functions return the normalised text. *)
Theorem clave_de_A_es_identidad texto clave :
  valido texto clave ->
  (forall c, In c (normalizar_clave clave) -> c = 65) ->
  cifrar_vigenere texto clave = Ret (limpiar_texto texto) /\
  descifrar_vigenere texto clave = Ret (limpiar_texto texto, []).
Proof.
  intros Hv HA. apply valido_ok in Hv. destruct Hv as [Hk Ht].
  pose proof (clave_ok_normalizada _ Hk) as Hn.
  rewrite (cifrar_vigenere_valid _ _ Hk Ht), (descifrar_vigenere_valid _ _ Hk Ht).
  unfold cifrado, descifrado.
  rewrite (map_zip_A enc), (map_zip_A dec);
    auto using enc_A, dec_A, limpiar_texto_all_AZ, length_expandida;
    intros x Hx; apply HA; now apply In_expandida in Hx.
Qed.

Lemma clave_de_A_es_identidad_demo :
  cifrar_vigenere TEXTO_DEMO (lit "aAaA") = Ret (limpiar_texto TEXTO_DEMO) /\
  descifrar_vigenere TEXTO_DEMO (lit "aAaA") = Ret (limpiar_texto TEXTO_DEMO, []).
Proof.
  apply (clave_de_A_es_identidad TEXTO_DEMO (lit "aAaA")).
  - exists []. vm_compute. reflexivity.
  - intros c Hc. vm_compute in Hc.
    repeat (destruct Hc as [<-|Hc]; [reflexivity|]). destruct Hc.
Defined.

(** ** Invisible characters *)

(** X6. [detectar_invisibles] returns one entry for each occurrence of a
    character of [CARACTERES_INVISIBLES], in the order of the string, the
    entry being the [repr] of the character; the list is empty exactly when
    the string holds none of them. *)
Theorem detectar_invisibles_ocurrencias cadena :
  detectar_invisibles cadena
    = List.map repr (List.filter (contains CARACTERES_INVISIBLES) cadena) /\
  (detectar_invisibles cadena = [] <->
   forall c, In c cadena -> ~ In c CARACTERES_INVISIBLES).
Proof.
  split; [apply detectar_invisibles_filter|].
  rewrite <- truthy_false, truthy_detectar_invisibles. split.
  - intros H c Hc Hi.
    assert (E : existsb invisible cadena = true)
      by (apply invisible_In; eauto).
    congruence.
  - intros H. destruct (existsb invisible cadena) eqn:E; [|reflexivity].
    apply invisible_In in E. destruct E as [c [Hc Hi]].
    now destruct (H c Hc).
Qed.

(** ** What the validator returns and raises *)

Lemma validar_datos_first_failure texto clave :
  validar_datos texto clave =
  match first_failure texto clave with
  | None => Ret (true, [])
  | Some InvisibleCharacters => Raise TypeError
  | Some r => Ret (false, mensaje_de r clave)
  end.
Proof.
  unfold validar_datos, first_failure, checks.
  rewrite !blank_test, truthy_detectar_invisibles, !str_eqb_nil.
  destruct (blank clave); paso; [reflexivity|].
  destruct (existsb invisible clave) eqn:Einv; paso.
  { rewrite codigos_raise by now rewrite truthy_detectar_invisibles.
    reflexivity. }
  destruct (negb (truthy (normalizar_clave clave))); paso; [reflexivity|].
  destruct (len (normalizar_clave clave) <? MINIMO_CLAVE); paso;
    [do 2 f_equal; vm_compute; reflexivity|].
  destruct (negb (str_eqb (normalizar_clave clave) (upper clave))); paso;
    [reflexivity|].
  destruct (blank texto); paso; [reflexivity|].
  destruct (negb (truthy (limpiar_texto texto))); paso; reflexivity.
Qed.

Lemma app_nonempty_l {A : Type} (a b : list A) : a <> [] -> a ++ b <> [].
Proof. destruct a; [congruence | discriminate]. Qed.

Lemma mensaje_de_nonempty r clave : mensaje_de r clave <> [].
Proof.
  destruct r; cbn [mensaje_de]; try apply app_nonempty_l;
    vm_compute; discriminate.
Qed.

(** X7. Whenever [validar_datos] returns, the message is empty exactly when
    the flag is [True]: an accepted input has no message and a rejected one
    always has one. *)
Theorem mensaje_vacio_si_valido texto clave b mensaje :
  validar_datos texto clave = Ret (b, mensaje) ->
  (b = true <-> mensaje = []).
Proof.
  rewrite validar_datos_first_failure. intros E.
  destruct (first_failure texto clave) as [r|].
  - assert (Hb : b = false /\ mensaje = mensaje_de r clave).
    { destruct r; cbv beta iota in E;
        try (match type of E with
             | Ret (_, ?M) = _ => remember M as M' eqn:HM
             end;
             injection E as <- <-; split; reflexivity).
      discriminate E. }
    destruct Hb as [-> ->]. split; [intros F; discriminate F|].
    intros H. exfalso. exact (mensaje_de_nonempty r clave H).
  - injection E as <- <-. split; reflexivity.
Qed.

Lemma mensaje_vacio_si_valido_demo :
  false = true <-> mensaje_de KeyTooShort (lit "AB") = [].
Proof.
  apply (mensaje_vacio_si_valido TEXTO_DEMO (lit "AB")).
  vm_compute. reflexivity.
Defined.

(** X8. [validar_datos] raises only when the key, once stripped, is not
    empty and holds a character of [CARACTERES_INVISIBLES], and what it
    raises then is [TypeError]; [cifrar_vigenere] and [descifrar_vigenere]
    raise [TypeError] in exactly the same case. *)
Theorem excepciones_de_validar_datos texto clave :
  (forall e,
     validar_datos texto clave = Raise e <->
     e = TypeError /\ strip clave <> [] /\
     exists c, In c clave /\ In c CARACTERES_INVISIBLES) /\
  (cifrar_vigenere texto clave = Raise TypeError <->
   strip clave <> [] /\ exists c, In c clave /\ In c CARACTERES_INVISIBLES) /\
  (descifrar_vigenere texto clave = Raise TypeError <->
   strip clave <> [] /\ exists c, In c clave /\ In c CARACTERES_INVISIBLES).
Proof.
  assert (Hb : blank clave = false <-> strip clave <> []).
  { unfold blank. destruct (forallb isspace clave) eqn:E.
    - apply strip_nil in E. split; [discriminate | congruence].
    - split; [|reflexivity]. intros _ H. apply strip_nil in H. congruence. }
  assert (Hv : forall e,
     validar_datos texto clave = Raise e <->
     e = TypeError /\ strip clave <> [] /\
     exists c, In c clave /\ In c CARACTERES_INVISIBLES).
  { intros e. now rewrite validar_datos_raise, Hb, invisible_In. }
  split; [exact Hv|].
  unfold cifrar_vigenere, descifrar_vigenere.
  destruct (validar_datos texto clave) as [[[|] m]|e] eqn:E; cbn [bind negb].
  - assert (Hok : valido texto clave) by (now exists m).
    apply valido_ok in Hok. destruct Hok as [Hk Ht].
    rewrite (ajustar_clave_Ret _ _ (clave_ok_normalizada _ Hk)). cbn [bind].
    rewrite (foldM_append _ (fun tk => [enc tk]))
      by (intros acc [t k]; change (ord (lit "A")) with (Ret 65);
          cbn [ord bind]; rewrite chr_letter; reflexivity).
    rewrite (foldM_append _ (fun ck => [dec ck]))
      by (intros acc [c k]; change (ord (lit "A")) with (Ret 65);
          cbn [ord bind]; rewrite chr_letter; reflexivity).
    cbn [bind].
    split; (split; [|intros H; assert (F : Ret (true, m) = Raise TypeError)
                       by (apply Hv; tauto); discriminate]).
    + discriminate.
    + destruct (negb _); discriminate.
  - split; (split; [discriminate|]);
      intros H; assert (F : Ret (false, m) = Raise TypeError)
        by (apply Hv; tauto); discriminate.
  - pose proof (proj1 (Hv e) eq_refl) as [-> H]. tauto.
Qed.

Lemma excepciones_de_validar_datos_demo :
  cifrar_vigenere TEXTO_DEMO (lit "CLA" ++ [0x200B] ++ lit "VE") = Raise TypeError.
Proof.
  apply (proj1 (proj2 (excepciones_de_validar_datos
                         TEXTO_DEMO (lit "CLA" ++ [0x200B] ++ lit "VE")))).
  split; [vm_compute; discriminate|].
  exists 0x200B. split; vm_compute; tauto.
Defined.

(** * The file functions *)

Module ArchivosFacts.
Import Py Vigenere Archivos Vocabulary PyFacts VigenereFacts.


Lemma str_eqb_refl a : str_eqb a a = true.
Proof. now apply str_eqb_eq. Qed.

(** *** Strings of letters pass the codecs unchanged *)

Lemma all_AZ_In s c : all_AZ s = true -> In c s -> 65 <= c <= 90.
Proof.
  unfold all_AZ. rewrite forallb_forall. intros H Hc.
  apply isAZ_spec. now apply H.
Qed.

Lemma decodificar_utf8_AZ s : all_AZ s = true -> decodificar_utf8 s = Some s.
Proof.
  unfold all_AZ. induction s as [|c s IH]; [reflexivity|].
  cbn [forallb]. rewrite andb_true_iff. intros [Hc Hs].
  apply isAZ_spec in Hc. cbn [decodificar_utf8].
  destruct (Z.leb_spec 0 c); [|lia].
  destruct (Z.leb_spec c 0x7F); [|lia].
  cbn [andb]. now rewrite (IH Hs).
Qed.

Lemma saltos_universales_AZ s : all_AZ s = true -> saltos_universales s = s.
Proof.
  unfold all_AZ. induction s as [|c s IH]; [reflexivity|].
  cbn [forallb]. rewrite andb_true_iff. intros [Hc Hs].
  apply isAZ_spec in Hc. cbn [saltos_universales].
  destruct (Z.eqb_spec c 0xD); [lia|]. now rewrite (IH Hs).
Qed.

Lemma codificar_caracteres_AZ s :
  all_AZ s = true -> List.flat_map codificar_caracter s = s.
Proof.
  unfold all_AZ. induction s as [|c s IH]; [reflexivity|].
  cbn [forallb List.flat_map]. rewrite andb_true_iff. intros [Hc Hs].
  apply isAZ_spec in Hc. unfold codificar_caracter at 1.
  destruct (Z.ltb_spec c 0x80); [|lia].
  cbn [app]. now rewrite (IH Hs).
Qed.

Lemma sin_saltos_AZ (ls s : str) :
  all_AZ s = true ->
  List.flat_map (fun c : char => if c =? 0xA then ls else [c]) s = s.
Proof.
  unfold all_AZ. induction s as [|c s IH]; [reflexivity|].
  cbn [forallb List.flat_map]. rewrite andb_true_iff. intros [Hc Hs].
  apply isAZ_spec in Hc. destruct (Z.eqb_spec c 0xA); [lia|].
  cbn [app]. now rewrite (IH Hs).
Qed.

Lemma codificar_utf8_AZ (ls s : str) :
  all_AZ s = true ->
  codificar_utf8 (List.flat_map (fun c : char => if c =? 0xA then ls else [c]) s)
  = Some s.
Proof.
  intros H. rewrite (sin_saltos_AZ ls s H). unfold codificar_utf8.
  rewrite (codificar_caracteres_AZ s H).
  destruct (existsb sustituto s) eqn:Es; [|reflexivity].
  apply existsb_exists in Es. destruct Es as [c [Hc Hs]].
  pose proof (all_AZ_In s c H Hc). unfold sustituto in Hs.
  apply andb_true_iff in Hs. rewrite !Z.leb_le in Hs. lia.
Qed.

(** *** What reading and writing leave unchanged *)

Lemma leer_fichero_disco path m :
  ficheros (snd (leer_fichero path m)) = ficheros m /\
  error_escritura (snd (leer_fichero path m)) = error_escritura m /\
  linesep (snd (leer_fichero path m)) = linesep m.
Proof.
  unfold leer_fichero, abrir_lectura, ficheros. cbn [log disco resolver].
  destruct (disco m (resolver m path)) as [e|e|bytes]; cbn; auto.
  destruct (decodificar_utf8 bytes); cbn; auto.
Qed.


Lemma leer_fichero_Fichero path m bytes :
  ficheros m path = Fichero bytes ->
  leer_fichero path m =
  match decodificar_utf8 bytes with
  | Some texto => (saltos_universales texto, m)
  | None =>
    (saltos_universales bytes,
     log WARNING (path ++ lit " no está en UTF-8, probando Latin-1...") m)
  end.
Proof.
  intros H. unfold leer_fichero, abrir_lectura, ficheros in *.
  cbn [log disco resolver]. rewrite H.
  destruct (decodificar_utf8 bytes); reflexivity.
Qed.



Lemma ficheros_log n mensaje m : ficheros (log n mensaje m) = ficheros m.
Proof. reflexivity. Qed.


(** Writing letters to a path that can be opened. *)
Lemma escribir_fichero_AZ path s m :
  error_escritura m path = None -> all_AZ s = true ->
  escribir_fichero path s m
  = log INFO (lit "Fichero escrito en " ++ path) (poner path s m).
Proof.
  intros Hw Hs. unfold escribir_fichero, abrir_y_escribir. cbv zeta.
  rewrite Hw.
  match goal with
  | |- context [codificar_utf8 ?t] =>
    replace (codificar_utf8 t) with (Some s)
      by (symmetry; exact (codificar_utf8_AZ (linesep m) s Hs))
  end.
  reflexivity.
Qed.

Lemma ficheros_poner path s m :
  (forall e, ficheros m path <> Ilegible e) ->
  ficheros (poner path s m) path = Fichero s.
Proof.
  intros H. unfold ficheros in *. cbn [poner disco resolver].
  rewrite str_eqb_refl.
  destruct (disco m (resolver m path)) as [e|e|b]; try reflexivity.
  now destruct (H e).
Qed.

(** Reading letters back. *)
Lemma leer_fichero_AZ path s m :
  ficheros m path = Fichero s -> all_AZ s = true ->
  leer_fichero path m = (s, m).
Proof.
  intros H Hs. rewrite (leer_fichero_Fichero path m s H).
  now rewrite (decodificar_utf8_AZ s Hs), (saltos_universales_AZ s Hs).
Qed.

Lemma descifrado_cifrado texto clave :
  clave_ok clave = true -> texto_ok texto = true ->
  descifrar_vigenere (cifrado texto clave) clave = Ret (limpiar_texto texto, []).
Proof.
  intros Hk Ht.
  assert (Haz : all_AZ (cifrado texto clave) = true) by apply all_AZ_map_enc.
  assert (Hlen := length_cifrado texto clave Hk).
  assert (Hne : cifrado texto clave <> [])
    by (apply (length_nonempty _ _ Hlen); now apply texto_ok_limpio).
  rewrite descifrar_vigenere_valid by (auto using texto_ok_all_AZ).
  unfold descifrado. rewrite (limpiar_texto_fixed _ Haz).
  rewrite (expandida_length_eq _ _ clave Hlen).
  unfold cifrado. rewrite map_dec_enc; [reflexivity | apply limpiar_texto_all_AZ |].
  apply length_expandida. now apply clave_ok_normalizada.
Qed.

End ArchivosFacts.

Import Archivos ArchivosFacts.



Lemma cifrar_vigenere_rechazo texto clave mensaje :
  validar_datos texto clave = Ret (false, mensaje) ->
  cifrar_vigenere texto clave = Raise (ValueError mensaje) /\
  descifrar_vigenere texto clave = Raise (ValueError mensaje).
Proof.
  intros H. unfold cifrar_vigenere, descifrar_vigenere. rewrite H. split; reflexivity.
Qed.

(** Written under another name of the input file, the output replaces the
    input: [./mensaje.txt] and [mensaje.txt] differ as strings and name one
    file. *)
Example salida_con_otro_nombre :
  ficheros (snd (cifrar_archivo (lit "mensaje.txt") (lit "./mensaje.txt")
                   CLAVE_DEMO mundo_demo)) (lit "mensaje.txt")
  = Fichero (lit "CEALYGLLVQCYEXIT").
Proof. vm_compute. reflexivity. Qed.

(** X10. When the input path does not exist, or reading it gives the empty
    string, or [validar_datos] rejects the text read and the key, then
    [cifrar_archivo] and [descifrar_archivo] return normally, leave every
    file as it was, and the last call to [logging] is an error. *)
Theorem archivos_fallo_sin_salida ruta_entrada ruta_salida clave m :
  existe ruta_entrada m = false \/
  fst (leer_fichero ruta_entrada m) = [] \/
  (exists mensaje,
     validar_datos (fst (leer_fichero ruta_entrada m)) clave
     = Ret (false, mensaje)) ->
  (exists m' e anteriores,
     cifrar_archivo ruta_entrada ruta_salida clave m = (Ret tt, m') /\
     ficheros m' = ficheros m /\
     registro m' = anteriores ++ [(ERROR, e)]) /\
  (exists m' e anteriores,
     descifrar_archivo ruta_entrada ruta_salida clave m = (Ret tt, m') /\
     ficheros m' = ficheros m /\
     registro m' = anteriores ++ [(ERROR, e)]).
Proof.
  intros H. unfold cifrar_archivo, descifrar_archivo.
  destruct (existe ruta_entrada m) eqn:Ee; cbn [negb].
  2:{ split; eexists _, _, _; (split; [reflexivity|]);
        split; reflexivity. }
  pose proof (leer_fichero_disco ruta_entrada m) as [Hd _].
  destruct (leer_fichero ruta_entrada m) as [contenido m1].
  cbn [fst snd] in H, Hd.
  destruct (truthy contenido) eqn:Et; cbn [negb].
  2:{ split; eexists _, _, _; (split; [reflexivity|]);
        (split; [exact Hd | reflexivity]). }
  destruct H as [H|[H|[mensaje H]]];
    [discriminate | subst contenido; discriminate |].
  destruct (cifrar_vigenere_rechazo _ _ _ H) as [-> ->].
  split; eexists _, _, _; (split; [reflexivity|]);
    (split; [exact Hd | reflexivity]).
Qed.

Lemma archivos_fallo_sin_salida_demo :
  (exists m' e anteriores,
     cifrar_archivo (lit "mensaje.txt") (lit "mensaje_cifrado.txt") (lit "AB")
       mundo_demo = (Ret tt, m') /\
     ficheros m' = ficheros mundo_demo /\
     registro m' = anteriores ++ [(ERROR, e)]) /\
  (exists m' e anteriores,
     descifrar_archivo (lit "mensaje.txt") (lit "mensaje_cifrado.txt") (lit "AB")
       mundo_demo = (Ret tt, m') /\
     ficheros m' = ficheros mundo_demo /\
     registro m' = anteriores ++ [(ERROR, e)]).
Proof.
  apply (archivos_fallo_sin_salida (lit "mensaje.txt") (lit "mensaje_cifrado.txt")
           (lit "AB") mundo_demo).
  right. right. eexists. vm_compute. reflexivity.
Defined.

(** X11. An input file that exists and is empty is reported as unreadable:
    both functions log the error of a failed read and write nothing. *)
Theorem archivo_vacio_no_se_lee ruta_entrada ruta_salida clave m :
  ficheros m ruta_entrada = Fichero [] ->
  cifrar_archivo ruta_entrada ruta_salida clave m
    = (Ret tt, log ERROR (lit "No se pudo leer el archivo de entrada.") m) /\
  descifrar_archivo ruta_entrada ruta_salida clave m
    = (Ret tt, log ERROR (lit "No se pudo leer el archivo cifrado.") m).
Proof.
  intros H. unfold cifrar_archivo, descifrar_archivo, existe.
  rewrite H, (leer_fichero_Fichero _ _ _ H). split; reflexivity.
Qed.

Lemma archivo_vacio_no_se_lee_demo :
  cifrar_archivo (lit "vacio.txt") (lit "salida.txt") CLAVE_DEMO
    (poner (lit "vacio.txt") [] mundo_demo)
    = (Ret tt, log ERROR (lit "No se pudo leer el archivo de entrada.")
                 (poner (lit "vacio.txt") [] mundo_demo)) /\
  descifrar_archivo (lit "vacio.txt") (lit "salida.txt") CLAVE_DEMO
    (poner (lit "vacio.txt") [] mundo_demo)
    = (Ret tt, log ERROR (lit "No se pudo leer el archivo cifrado.")
                 (poner (lit "vacio.txt") [] mundo_demo)).
Proof.
  apply (archivo_vacio_no_se_lee (lit "vacio.txt") (lit "salida.txt") CLAVE_DEMO
           (poner (lit "vacio.txt") [] mundo_demo)).
  vm_compute. reflexivity.
Defined.

(** What [cifrar_archivo] does when nothing fails. *)
Lemma cifrar_archivo_ok ruta_entrada ruta_salida clave m contenido m1 :
  existe ruta_entrada m = true ->
  leer_fichero ruta_entrada m = (contenido, m1) ->
  valido contenido clave ->
  error_escritura m ruta_salida = None ->
  cifrar_archivo ruta_entrada ruta_salida clave m
  = (Ret tt, log INFO (lit "Fichero escrito en " ++ ruta_salida)
               (poner ruta_salida (cifrado contenido clave) m1)) /\
  ficheros m1 = ficheros m /\
  error_escritura m1 = error_escritura m.
Proof.
  intros He Hl Hv Hw. apply valido_ok in Hv. destruct Hv as [Hk Ht].
  pose proof (leer_fichero_disco ruta_entrada m) as [Hd [Hwd _]].
  unfold cifrar_archivo. rewrite He, Hl in *. cbn [negb snd] in *.
  assert (Hne : truthy contenido = true).
  { apply truthy_true. intros ->. apply texto_ok_limpio in Ht. now apply Ht. }
  rewrite Hne. cbn [negb].
  rewrite (cifrar_vigenere_valid _ _ Hk Ht).
  rewrite escribir_fichero_AZ; [auto | congruence | apply all_AZ_map_enc].
Qed.

(** X12. When the input file exists, the text read from it and the key
    pass validation and the output path can be opened for writing,
    [cifrar_archivo] leaves in [ruta_salida] exactly the string
    [cifrar_vigenere] returns for the text read, one byte per letter, logs
    the write, and reading the output back gives that string.  Nothing
    requires the two paths to differ. *)
Theorem cifrar_archivo_escribe ruta_entrada ruta_salida clave m contenido m1 :
  existe ruta_entrada m = true ->
  leer_fichero ruta_entrada m = (contenido, m1) ->
  valido contenido clave ->
  error_escritura m ruta_salida = None ->
  (forall e, ficheros m ruta_salida <> Ilegible e) ->
  exists c m',
    cifrar_vigenere contenido clave = Ret c /\
    cifrar_archivo ruta_entrada ruta_salida clave m = (Ret tt, m') /\
    ficheros m' ruta_salida = Fichero c /\
    leer_fichero ruta_salida m' = (c, m') /\
    registro m'
      = registro m1 ++ [(INFO, lit "Fichero escrito en " ++ ruta_salida)].
Proof.
  intros He Hl Hv Hw Hr.
  destruct (cifrar_archivo_ok _ _ _ _ _ _ He Hl Hv Hw) as [E [Hd _]].
  apply valido_ok in Hv. destruct Hv as [Hk Ht].
  exists (cifrado contenido clave). eexists.
  split; [now apply cifrar_vigenere_valid|].
  split; [exact E|].
  assert (Hf : ficheros (log INFO (lit "Fichero escrito en " ++ ruta_salida)
                 (poner ruta_salida (cifrado contenido clave) m1)) ruta_salida
               = Fichero (cifrado contenido clave)).
  { rewrite ficheros_log. apply ficheros_poner. now rewrite Hd. }
  split; [exact Hf|].
  split; [|reflexivity].
  apply leer_fichero_AZ; [exact Hf | apply all_AZ_map_enc].
Qed.

Lemma cifrar_archivo_escribe_demo :
  exists c m',
    cifrar_vigenere TEXTO_DEMO CLAVE_DEMO = Ret c /\
    cifrar_archivo (lit "mensaje.txt") (lit "mensaje_cifrado.txt") CLAVE_DEMO
      mundo_demo = (Ret tt, m') /\
    ficheros m' (lit "mensaje_cifrado.txt") = Fichero c /\
    leer_fichero (lit "mensaje_cifrado.txt") m' = (c, m') /\
    registro m'
      = registro mundo_demo
        ++ [(INFO, lit "Fichero escrito en " ++ lit "mensaje_cifrado.txt")].
Proof.
  apply (cifrar_archivo_escribe (lit "mensaje.txt") (lit "mensaje_cifrado.txt")
           CLAVE_DEMO mundo_demo TEXTO_DEMO mundo_demo).
  - vm_compute. reflexivity.
  - vm_compute. reflexivity.
  - exists []. vm_compute. reflexivity.
  - reflexivity.
  - intros e. vm_compute. discriminate.
Defined.

(** X13. The round trip through files: when the input file exists, the
    text read from it and the key pass validation, and the two other paths
    can be written and read, [cifrar_archivo] followed by
    [descifrar_archivo] on its output leaves in the last file the
    normalised text of the input, one byte per letter. *)
Theorem archivos_roundtrip
    ruta_entrada ruta_cifrado ruta_salida clave m contenido m1 :
  existe ruta_entrada m = true ->
  leer_fichero ruta_entrada m = (contenido, m1) ->
  valido contenido clave ->
  error_escritura m ruta_cifrado = None ->
  error_escritura m ruta_salida = None ->
  (forall e, ficheros m ruta_cifrado <> Ilegible e) ->
  (forall e, ficheros m ruta_salida <> Ilegible e) ->
  exists m2 m3,
    cifrar_archivo ruta_entrada ruta_cifrado clave m = (Ret tt, m2) /\
    descifrar_archivo ruta_cifrado ruta_salida clave m2 = (Ret tt, m3) /\
    ficheros m3 ruta_salida = Fichero (limpiar_texto contenido).
Proof.
  intros He Hl Hv Hw1 Hw2 Hr1 Hr2.
  destruct (cifrar_archivo_ok _ _ _ _ _ _ He Hl Hv Hw1) as [E [Hd Hwd]].
  apply valido_ok in Hv. destruct Hv as [Hk Ht].
  set (c := cifrado contenido clave) in *.
  set (m2 := log INFO (lit "Fichero escrito en " ++ ruta_cifrado)
               (poner ruta_cifrado c m1)) in *.
  assert (Haz : all_AZ c = true) by apply all_AZ_map_enc.
  assert (Hf : ficheros m2 ruta_cifrado = Fichero c).
  { unfold m2. rewrite ficheros_log. apply ficheros_poner. now rewrite Hd. }
  assert (Hne : truthy c = true).
  { apply truthy_true.
    apply (length_nonempty _ _ (length_cifrado contenido clave Hk)).
    now apply texto_ok_limpio. }
  exists m2. eexists. split; [exact E|].
  unfold descifrar_archivo, existe. rewrite Hf.
  rewrite (leer_fichero_AZ _ _ _ Hf Haz), Hne. cbn [negb].
  unfold c at 1. rewrite (descifrado_cifrado _ _ Hk Ht). cbn [List.fold_left].
  split; [reflexivity|].
  rewrite escribir_fichero_AZ;
    [| cbn; congruence | apply limpiar_texto_all_AZ].
  rewrite ficheros_log. apply ficheros_poner.
  intros e. unfold m2. rewrite ficheros_log.
  unfold ficheros. cbn [poner disco resolver].
  destruct (str_eqb (resolver m1 ruta_salida) (resolver m1 ruta_cifrado)) eqn:Eq.
  - destruct (disco m1 (resolver m1 ruta_cifrado)) as [x|x|x] eqn:Ex;
      try discriminate.
    change (disco m1 (resolver m1 ruta_cifrado))
      with (ficheros m1 ruta_cifrado) in Ex.
    rewrite Hd in Ex. now destruct (Hr1 x).
  - change (disco m1 (resolver m1 ruta_salida)) with (ficheros m1 ruta_salida).
    rewrite Hd. apply Hr2.
Qed.

Lemma archivos_roundtrip_demo :
  exists m2 m3,
    cifrar_archivo (lit "mensaje.txt") (lit "mensaje_cifrado.txt") CLAVE_DEMO
      mundo_demo = (Ret tt, m2) /\
    descifrar_archivo (lit "mensaje_cifrado.txt") (lit "mensaje_descifrado.txt")
      CLAVE_DEMO m2 = (Ret tt, m3) /\
    ficheros m3 (lit "mensaje_descifrado.txt")
      = Fichero (limpiar_texto TEXTO_DEMO).
Proof.
  apply (archivos_roundtrip (lit "mensaje.txt") (lit "mensaje_cifrado.txt")
           (lit "mensaje_descifrado.txt") CLAVE_DEMO mundo_demo
           TEXTO_DEMO mundo_demo).
  - vm_compute. reflexivity.
  - vm_compute. reflexivity.
  - exists []. vm_compute. reflexivity.
  - reflexivity.
  - reflexivity.
  - intros e. vm_compute. discriminate.
  - intros e. vm_compute. discriminate.
Defined.

Lemma blank_false_strip s : blank s = false <-> strip s <> [].
Proof.
  unfold blank. destruct (forallb isspace s) eqn:E.
  - apply strip_nil in E. split; [discriminate | congruence].
  - split; [|reflexivity]. intros _ H. apply strip_nil in H. congruence.
Qed.

(** X14. The [TypeError] of the validator is not caught by the file
    functions: with an input file that reads as a non-empty text and a key
    that, once stripped, is not empty and holds an invisible character,
    [cifrar_archivo] and [descifrar_archivo] raise [TypeError]; they have
    written nothing. *)
Theorem archivo_clave_invisible_TypeError ruta_entrada ruta_salida clave m :
  existe ruta_entrada m = true ->
  fst (leer_fichero ruta_entrada m) <> [] ->
  strip clave <> [] ->
  (exists c, In c clave /\ In c CARACTERES_INVISIBLES) ->
  fst (cifrar_archivo ruta_entrada ruta_salida clave m) = Raise TypeError /\
  fst (descifrar_archivo ruta_entrada ruta_salida clave m) = Raise TypeError /\
  ficheros (snd (cifrar_archivo ruta_entrada ruta_salida clave m)) = ficheros m /\
  ficheros (snd (descifrar_archivo ruta_entrada ruta_salida clave m)) = ficheros m.
Proof.
  intros He Hc Hs Hi. unfold cifrar_archivo, descifrar_archivo. rewrite He.
  pose proof (leer_fichero_disco ruta_entrada m) as [Hd _].
  destruct (leer_fichero ruta_entrada m) as [contenido m1].
  cbn [fst snd negb] in *. apply truthy_true in Hc. rewrite Hc. cbn [negb].
  assert (Hv : validar_datos contenido clave = Raise TypeError).
  { apply validar_datos_raise. split; [reflexivity|].
    split; [now apply blank_false_strip | now apply invisible_In]. }
  unfold cifrar_vigenere, descifrar_vigenere. rewrite Hv. cbn [bind fst snd].
  auto.
Qed.

Lemma archivo_clave_invisible_TypeError_demo :
  fst (cifrar_archivo (lit "mensaje.txt") (lit "mensaje_cifrado.txt")
         (lit "CLA" ++ [0x200B] ++ lit "VE") mundo_demo) = Raise TypeError /\
  fst (descifrar_archivo (lit "mensaje.txt") (lit "mensaje_cifrado.txt")
         (lit "CLA" ++ [0x200B] ++ lit "VE") mundo_demo) = Raise TypeError /\
  ficheros (snd (cifrar_archivo (lit "mensaje.txt") (lit "mensaje_cifrado.txt")
                   (lit "CLA" ++ [0x200B] ++ lit "VE") mundo_demo))
    = ficheros mundo_demo /\
  ficheros (snd (descifrar_archivo (lit "mensaje.txt") (lit "mensaje_cifrado.txt")
                   (lit "CLA" ++ [0x200B] ++ lit "VE") mundo_demo))
    = ficheros mundo_demo.
Proof.
  apply (archivo_clave_invisible_TypeError (lit "mensaje.txt")
           (lit "mensaje_cifrado.txt") (lit "CLA" ++ [0x200B] ++ lit "VE")
           mundo_demo).
  - vm_compute. reflexivity.
  - vm_compute. discriminate.
  - vm_compute. discriminate.
  - exists 0x200B. split; vm_compute; tauto.
Defined.

(** ** Writing and reading back *)

Ltac decide_if :=
  match goal with
  | |- context [if ?t then _ else _] =>
    let H := fresh "T" in
    destruct t eqn:H;
    [ try (exfalso;
           repeat match type of H with
                  | context [?a =? ?b] => destruct (Z.eqb_spec a b)
                  end;
           rewrite ?andb_true_iff, ?Z.leb_le in H; lia)
    | try (exfalso;
           repeat match type of H with
                  | context [?a =? ?b] => destruct (Z.eqb_spec a b)
                  end;
           rewrite ?andb_false_iff, ?Z.leb_gt in H; lia) ]
  end.

Lemma decodificar_un_byte b0 r :
  0 <= b0 <= 0x7F ->
  decodificar_utf8 (b0 :: r) = option_map (cons b0) (decodificar_utf8 r).
Proof.
  intros H. cbn [decodificar_utf8]. decide_if. reflexivity.
Qed.

Lemma decodificar_dos_bytes b0 b1 r :
  0xC2 <= b0 <= 0xDF -> 0x80 <= b1 <= 0xBF ->
  decodificar_utf8 (b0 :: b1 :: r)
  = option_map (cons ((b0 - 0xC0) * 64 + (b1 - 0x80))) (decodificar_utf8 r).
Proof.
  intros H0 H1. cbn [decodificar_utf8]. unfold continuacion.
  repeat decide_if. reflexivity.
Qed.

Lemma decodificar_tres_bytes b0 b1 b2 r :
  0xE0 <= b0 <= 0xEF -> 0x80 <= b1 <= 0xBF -> 0x80 <= b2 <= 0xBF ->
  (b0 = 0xE0 -> 0xA0 <= b1) -> (b0 = 0xED -> b1 <= 0x9F) ->
  decodificar_utf8 (b0 :: b1 :: b2 :: r)
  = option_map (cons ((b0 - 0xE0) * 4096 + (b1 - 0x80) * 64 + (b2 - 0x80)))
               (decodificar_utf8 r).
Proof.
  intros H0 H1 H2 Ha Hb. cbn [decodificar_utf8]. unfold continuacion.
  repeat decide_if. reflexivity.
Qed.

Lemma decodificar_cuatro_bytes b0 b1 b2 b3 r :
  0xF0 <= b0 <= 0xF4 -> 0x80 <= b1 <= 0xBF -> 0x80 <= b2 <= 0xBF ->
  0x80 <= b3 <= 0xBF ->
  (b0 = 0xF0 -> 0x90 <= b1) -> (b0 = 0xF4 -> b1 <= 0x8F) ->
  decodificar_utf8 (b0 :: b1 :: b2 :: b3 :: r)
  = option_map (cons ((b0 - 0xF0) * 262144 + (b1 - 0x80) * 4096
                      + (b2 - 0x80) * 64 + (b3 - 0x80)))
               (decodificar_utf8 r).
Proof.
  intros H0 H1 H2 H3 Ha Hb. cbn [decodificar_utf8]. unfold continuacion.
  repeat decide_if. reflexivity.
Qed.

Ltac valor_es c :=
  match goal with
  | |- option_map (cons ?v) _ = _ =>
    replace v with c by (Z.div_mod_to_equations; lia); reflexivity
  end.

Lemma decodificar_codificar_caracter c resto :
  codificable c = true ->
  decodificar_utf8 (codificar_caracter c ++ resto)
  = option_map (cons c) (decodificar_utf8 resto).
Proof.
  unfold codificable, sustituto.
  rewrite !andb_true_iff, negb_true_iff, andb_false_iff.
  rewrite Z.leb_le, Z.ltb_lt, Z.leb_gt, Z.leb_gt.
  intros [[H0 H1] Hs]. unfold codificar_caracter.
  destruct (Z.ltb_spec c 0x80); [|destruct (Z.ltb_spec c 0x800);
                                   [|destruct (Z.ltb_spec c 0x10000)]];
    cbn [app].
  - apply decodificar_un_byte. lia.
  - rewrite decodificar_dos_bytes by (Z.div_mod_to_equations; lia).
    valor_es c.
  - rewrite decodificar_tres_bytes by (Z.div_mod_to_equations; lia).
    valor_es c.
  - rewrite decodificar_cuatro_bytes by (Z.div_mod_to_equations; lia).
    valor_es c.
Qed.

Lemma decodificar_codificar s :
  forallb codificable s = true ->
  decodificar_utf8 (List.flat_map codificar_caracter s) = Some s.
Proof.
  induction s as [|c s IH]; [reflexivity|].
  cbn [forallb List.flat_map]. rewrite andb_true_iff. intros [Hc Hs].
  now rewrite (decodificar_codificar_caracter c _ Hc), (IH Hs).
Qed.

(** Writing turns each line feed into [os.linesep]; reading turns it back. *)
Lemma saltos_ida_y_vuelta (ls s : str) :
  ls = [0xA] \/ ls = [0xD; 0xA] ->
  forallb escalar s = true ->
  saltos_universales
    (List.flat_map (fun c : char => if c =? 0xA then ls else [c]) s) = s.
Proof.
  intros Hls. induction s as [|c s IH]; [reflexivity|].
  cbn [forallb List.flat_map]. rewrite andb_true_iff. intros [Hc Hs].
  unfold escalar in Hc. rewrite !andb_true_iff, !negb_true_iff in Hc.
  destruct Hc as [_ Hcr]. apply Z.eqb_neq in Hcr.
  destruct (Z.eqb_spec c 0xA) as [->|Hlf].
  - destruct Hls as [->| ->]; cbn [app saltos_universales Z.eqb];
      cbn; now rewrite (IH Hs).
  - cbn [app saltos_universales].
    destruct (Z.eqb_spec c 0xD); [contradiction|]. now rewrite (IH Hs).
Qed.

Lemma codificable_salida (ls s : str) :
  ls = [0xA] \/ ls = [0xD; 0xA] ->
  forallb escalar s = true ->
  forallb codificable
    (List.flat_map (fun c : char => if c =? 0xA then ls else [c]) s) = true.
Proof.
  intros Hls. induction s as [|c s IH]; [reflexivity|].
  cbn [forallb List.flat_map]. rewrite andb_true_iff. intros [Hc Hs].
  rewrite forallb_app, (IH Hs), andb_true_r.
  destruct (Z.eqb_spec c 0xA) as [->|Hlf].
  - destruct Hls as [->| ->]; reflexivity.
  - cbn [forallb]. rewrite andb_true_r. unfold escalar in Hc.
    apply andb_true_iff in Hc. tauto.
Qed.

Lemma codificar_utf8_codificable s :
  forallb codificable s = true ->
  codificar_utf8 s = Some (List.flat_map codificar_caracter s).
Proof.
  intros H. unfold codificar_utf8.
  destruct (existsb sustituto s) eqn:E; [|reflexivity].
  apply existsb_exists in E. destruct E as [c [Hc Hs]].
  rewrite forallb_forall in H. specialize (H c Hc).
  unfold codificable in H. rewrite andb_true_iff, negb_true_iff in H.
  destruct H as [_ H]. congruence.
Qed.

(** X15. What [escribir_fichero] writes, [leer_fichero] reads back: for a
    text of Unicode code points without surrogates and without carriage
    returns, a line separator that is ["\n"] or ["\r\n"], and a path that
    can be opened for writing and for reading, the write is logged as done
    and reading the path afterwards returns the text, with no other call to
    [logging]. *)
Theorem escribir_leer_roundtrip path s m :
  forallb escalar s = true ->
  linesep m = [0xA] \/ linesep m = [0xD; 0xA] ->
  error_escritura m path = None ->
  (forall e, ficheros m path <> Ilegible e) ->
  exists m',
    escribir_fichero path s m = m' /\
    registro m' = registro m ++ [(INFO, lit "Fichero escrito en " ++ path)] /\
    leer_fichero path m' = (s, m').
Proof.
  intros Hs Hls Hw Hr. eexists. split; [reflexivity|].
  unfold escribir_fichero, abrir_y_escribir. cbv zeta. rewrite Hw.
  pose proof (codificable_salida (linesep m) s Hls Hs) as Hcod.
  match goal with
  | |- context [codificar_utf8 ?t] =>
    replace (codificar_utf8 t) with (Some (List.flat_map codificar_caracter t))
      by (symmetry; exact (codificar_utf8_codificable _ Hcod))
  end.
  split; [reflexivity|].
  erewrite leer_fichero_Fichero
    by (rewrite ficheros_log; apply ficheros_poner; exact Hr).
  match goal with
  | |- context [decodificar_utf8 ?b] =>
    replace (decodificar_utf8 b)
      with (Some (List.flat_map
                    (fun c : char => if c =? 0xA then linesep m else [c]) s))
      by (symmetry; exact (decodificar_codificar _ Hcod))
  end.
  f_equal. exact (saltos_ida_y_vuelta (linesep m) s Hls Hs).
Qed.

Lemma escribir_leer_roundtrip_demo :
  exists m',
    escribir_fichero (lit "nota.txt") (lit "Señal: 16 letras" ++ [0xA; 0x1F600])
      mundo_demo = m' /\
    registro m' = registro mundo_demo
                  ++ [(INFO, lit "Fichero escrito en " ++ lit "nota.txt")] /\
    leer_fichero (lit "nota.txt") m'
      = (lit "Señal: 16 letras" ++ [0xA; 0x1F600], m').
Proof.
  apply (escribir_leer_roundtrip (lit "nota.txt")
           (lit "Señal: 16 letras" ++ [0xA; 0x1F600]) mundo_demo).
  - vm_compute. reflexivity.
  - left. reflexivity.
  - reflexivity.
  - intros e. vm_compute. discriminate.
Defined.

(** ** Decrypting a file *)

(** X16. The decrypting counterpart: when the input file exists, the text
    read from it and the key pass validation and the output path can be
    opened for writing and reading, [descifrar_archivo] leaves in
    [ruta_salida] the string [descifrar_vigenere] returns for the text
    read, and its only call to [logging] after the read reports the write:
    the warning about a wrong key is never logged. *)
Theorem descifrar_archivo_escribe ruta_entrada ruta_salida clave m contenido m1 :
  existe ruta_entrada m = true ->
  leer_fichero ruta_entrada m = (contenido, m1) ->
  valido contenido clave ->
  error_escritura m ruta_salida = None ->
  (forall e, ficheros m ruta_salida <> Ilegible e) ->
  exists p m',
    descifrar_vigenere contenido clave = Ret (p, []) /\
    descifrar_archivo ruta_entrada ruta_salida clave m = (Ret tt, m') /\
    ficheros m' ruta_salida = Fichero p /\
    registro m'
      = registro m1 ++ [(INFO, lit "Fichero escrito en " ++ ruta_salida)].
Proof.
  intros He Hl Hv Hw Hr. apply valido_ok in Hv. destruct Hv as [Hk Ht].
  pose proof (leer_fichero_disco ruta_entrada m) as [Hd [Hwd _]].
  rewrite Hl in Hd, Hwd. cbn [snd] in Hd, Hwd.
  exists (descifrado contenido clave). eexists.
  split; [now apply descifrar_vigenere_valid|].
  unfold descifrar_archivo. rewrite He, Hl. cbn [negb].
  assert (Hne : truthy contenido = true).
  { apply truthy_true. intros ->. apply texto_ok_limpio in Ht. now apply Ht. }
  rewrite Hne, (descifrar_vigenere_valid _ _ Hk Ht). cbn [negb List.fold_left].
  rewrite escribir_fichero_AZ; [| congruence | apply all_AZ_map_dec].
  split; [reflexivity|]. split; [|reflexivity].
  rewrite ficheros_log. apply ficheros_poner. now rewrite Hd.
Qed.

Lemma descifrar_archivo_escribe_demo :
  exists p m',
    descifrar_vigenere TEXTO_DEMO CLAVE_DEMO = Ret (p, []) /\
    descifrar_archivo (lit "mensaje.txt") (lit "mensaje_descifrado.txt")
      CLAVE_DEMO mundo_demo = (Ret tt, m') /\
    ficheros m' (lit "mensaje_descifrado.txt") = Fichero p /\
    registro m'
      = registro mundo_demo
        ++ [(INFO, lit "Fichero escrito en " ++ lit "mensaje_descifrado.txt")].
Proof.
  apply (descifrar_archivo_escribe (lit "mensaje.txt")
           (lit "mensaje_descifrado.txt") CLAVE_DEMO mundo_demo
           TEXTO_DEMO mundo_demo).
  - vm_compute. reflexivity.
  - vm_compute. reflexivity.
  - exists []. vm_compute. reflexivity.
  - reflexivity.
  - intros e. vm_compute. discriminate.
Defined.

(** ** A key longer than the text *)

Lemma expandida_prefijo texto clave :
  (List.length texto <= List.length (normalizar_clave clave))%nat ->
  normalizar_clave clave <> [] ->
  expandida texto clave = firstn (List.length texto) (normalizar_clave clave).
Proof.
  intros Hlen Hn. apply (nth_ext _ _ 0 0).
  - rewrite (length_expandida _ _ Hn), length_firstn. lia.
  - intros i Hi. rewrite (length_expandida _ _ Hn) in Hi.
    rewrite (nth_expandida _ _ _ _ Hn Hi), nth_firstn.
    destruct (Nat.ltb_spec i (List.length texto)); [|lia].
    now rewrite Nat.mod_small by lia.
Qed.

(** X17. When the normalised key is at least as long as the normalised
    text, only its first letters are used: two validated keys whose
    normalised forms agree on as many letters as the normalised text has
    give the same cipher text and the same decryption. *)
Theorem clave_larga_solo_prefijo texto clave1 clave2 :
  valido texto clave1 -> valido texto clave2 ->
  (List.length (limpiar_texto texto) <= List.length (normalizar_clave clave1))%nat ->
  (List.length (limpiar_texto texto) <= List.length (normalizar_clave clave2))%nat ->
  firstn (List.length (limpiar_texto texto)) (normalizar_clave clave1)
  = firstn (List.length (limpiar_texto texto)) (normalizar_clave clave2) ->
  cifrar_vigenere texto clave1 = cifrar_vigenere texto clave2 /\
  descifrar_vigenere texto clave1 = descifrar_vigenere texto clave2.
Proof.
  intros H1 H2 L1 L2 E. apply valido_ok in H1, H2.
  destruct H1 as [Hk1 Ht]. destruct H2 as [Hk2 _].
  rewrite (cifrar_vigenere_valid _ _ Hk1 Ht), (cifrar_vigenere_valid _ _ Hk2 Ht).
  rewrite (descifrar_vigenere_valid _ _ Hk1 Ht), (descifrar_vigenere_valid _ _ Hk2 Ht).
  unfold cifrado, descifrado.
  rewrite (expandida_prefijo _ clave1 L1 (clave_ok_normalizada _ Hk1)).
  rewrite (expandida_prefijo _ clave2 L2 (clave_ok_normalizada _ Hk2)).
  rewrite E. auto.
Qed.

Lemma clave_larga_solo_prefijo_demo :
  cifrar_vigenere (lit "Hola") (lit "CLAVE") = cifrar_vigenere (lit "Hola") (lit "CLAVO") /\
  descifrar_vigenere (lit "Hola") (lit "CLAVE") = descifrar_vigenere (lit "Hola") (lit "CLAVO").
Proof.
  apply (clave_larga_solo_prefijo (lit "Hola") (lit "CLAVE") (lit "CLAVO")).
  - exists []. vm_compute. reflexivity.
  - exists []. vm_compute. reflexivity.
  - vm_compute. lia.
  - vm_compute. lia.
  - vm_compute. reflexivity.
Defined.

(** ** Two keys in a row *)

Lemma enc_enc_comm t a b : enc (enc (t, a), b) = enc (enc (t, b), a).
Proof.
  unfold enc. cbn [fst snd]. f_equal.
  replace ((t - 65 + (a - 65)) mod 26 + 65 - 65) with ((t - 65 + (a - 65)) mod 26) by lia.
  replace ((t - 65 + (b - 65)) mod 26 + 65 - 65) with ((t - 65 + (b - 65)) mod 26) by lia.
  rewrite !Zplus_mod_idemp_l. f_equal. lia.
Qed.

Lemma map_enc_enc_comm t a b :
  List.length a = List.length t -> List.length b = List.length t ->
  List.map enc (zip (List.map enc (zip t a)) b)
  = List.map enc (zip (List.map enc (zip t b)) a).
Proof.
  unfold zip. revert a b.
  induction t as [|x t IH]; intros [|y a] [|z b]; cbn [List.length];
    try discriminate; [reflexivity|].
  intros Ha Hb. cbn [combine List.map]. f_equal; [apply enc_enc_comm|].
  apply IH; lia.
Qed.

Lemma cifrar_de_cifrado texto clave1 clave2 :
  clave_ok clave1 = true -> clave_ok clave2 = true -> texto_ok texto = true ->
  cifrar_vigenere (cifrado texto clave1) clave2
  = Ret (List.map enc (zip (cifrado texto clave1)
                           (expandida (limpiar_texto texto) clave2))).
Proof.
  intros Hk1 Hk2 Ht.
  assert (Haz : all_AZ (cifrado texto clave1) = true) by apply all_AZ_map_enc.
  assert (Hlen := length_cifrado texto clave1 Hk1).
  assert (Hne : cifrado texto clave1 <> [])
    by (apply (length_nonempty _ _ Hlen); now apply texto_ok_limpio).
  rewrite cifrar_vigenere_valid by (auto using texto_ok_all_AZ).
  unfold cifrado at 1. rewrite (limpiar_texto_fixed _ Haz).
  now rewrite (expandida_length_eq _ _ clave2 Hlen).
Qed.

(** X18. Encrypting with one key and then with another gives the same
    cipher text in either order: for a text validated with both keys,
    [cifrar_vigenere (cifrar_vigenere t k1) k2] and
    [cifrar_vigenere (cifrar_vigenere t k2) k1] return the same string. *)
Theorem cifrado_doble_conmuta texto clave1 clave2 :
  valido texto clave1 -> valido texto clave2 ->
  exists c1 c2 c,
    cifrar_vigenere texto clave1 = Ret c1 /\
    cifrar_vigenere texto clave2 = Ret c2 /\
    cifrar_vigenere c1 clave2 = Ret c /\
    cifrar_vigenere c2 clave1 = Ret c.
Proof.
  intros H1 H2. apply valido_ok in H1, H2.
  destruct H1 as [Hk1 Ht]. destruct H2 as [Hk2 _].
  exists (cifrado texto clave1), (cifrado texto clave2). eexists.
  split; [now apply cifrar_vigenere_valid|].
  split; [now apply cifrar_vigenere_valid|].
  split; [now apply cifrar_de_cifrado|].
  rewrite (cifrar_de_cifrado texto clave2 clave1 Hk2 Hk1 Ht).
  f_equal. unfold cifrado. symmetry. apply map_enc_enc_comm;
    apply length_expandida; now apply clave_ok_normalizada.
Qed.

Lemma cifrado_doble_conmuta_demo :
  exists c1 c2 c,
    cifrar_vigenere TEXTO_DEMO (lit "CLAVE") = Ret c1 /\
    cifrar_vigenere TEXTO_DEMO (lit "LLAVES") = Ret c2 /\
    cifrar_vigenere c1 (lit "LLAVES") = Ret c /\
    cifrar_vigenere c2 (lit "CLAVE") = Ret c.
Proof.
  apply (cifrado_doble_conmuta TEXTO_DEMO (lit "CLAVE") (lit "LLAVES")).
  - exists []. vm_compute. reflexivity.
  - exists []. vm_compute. reflexivity.
Defined.

(** ** The key is judged before the text *)

(** X19. A key that fails one of the key checks gets the same outcome from
    [validar_datos] whatever the text: the text is not examined. *)
Theorem clave_rechazada_sin_mirar_texto texto1 texto2 clave :
  clave_ok clave = false ->
  validar_datos texto1 clave = validar_datos texto2 clave.
Proof.
  unfold clave_ok, validar_datos.
  rewrite !blank_test, truthy_detectar_invisibles.
  destruct (blank clave); cbn [negb andb]; [reflexivity|].
  destruct (existsb invisible clave); cbn [negb andb]; [reflexivity|].
  destruct (truthy (normalizar_clave clave)); cbn [negb andb]; [|reflexivity].
  destruct (len (normalizar_clave clave) <? MINIMO_CLAVE); cbn [negb andb];
    [reflexivity|].
  destruct (str_eqb (normalizar_clave clave) (upper clave)); cbn [negb andb];
    [discriminate | reflexivity].
Qed.

Lemma clave_rechazada_sin_mirar_texto_demo :
  validar_datos TEXTO_DEMO (lit "AB12CD") = validar_datos [] (lit "AB12CD").
Proof.
  apply (clave_rechazada_sin_mirar_texto TEXTO_DEMO [] (lit "AB12CD")).
  vm_compute. reflexivity.
Defined.
